(** * radiorec.py: recording internet radio streams

    A shallow embedding of [parse_icy], [record_worker] and the tail of
    [record] from [radiorec.py], and the properties of the capture engine
    that the specification states about them.

    Conventions.
    - A Python [bytes] value is a [list byte].
    - A Python [str] value is the list of its code points ([list Z]).
      Text that comes from HTTP headers, from the command line or from a
      literal in the source is written as a Rocq [string] (one character
      per code point below 256, the way [http.client] decodes headers) and
      turned into code points by [text].
    - A Python exception is a constructor of [exn]; a computation that may
      raise returns a [result]. *)

From Stdlib Require Import ZArith List Bool Lia.
From Stdlib Require Import Strings.Byte Strings.Ascii Strings.String.
From stdpp Require Import gmap strings.
Import ListNotations.

Local Open Scope Z_scope.

(* ===================================================================== *)
(** ** Exceptions and results                                            *)
(* ===================================================================== *)

Inductive exn : Type :=
| ValueError
| TypeError
| UnicodeDecodeError
| UnicodeEncodeError
| SystemExit
| OSError.

Inductive result (A : Type) : Type :=
| Ok (a : A)
| Raise (e : exn).
Arguments Ok {A} a.
Arguments Raise {A} e.

Definition bind {A B : Type} (r : result A) (k : A -> result B) : result B :=
  match r with
  | Ok a => k a
  | Raise e => Raise e
  end.

Notation "'let*' x ':=' r 'in' k" := (bind r (fun x => k))
  (at level 10, x pattern, r at level 100, k at level 200).

(* ===================================================================== *)
(** ** Python values                                                     *)
(* ===================================================================== *)

Definition bytes := list byte.
Definition str := list Z.

(** The integer value of a byte ([b[0]], [ord]). *)
Definition bv (b : byte) : Z := Z.of_N (Byte.to_N b).

(** The byte of an integer in [0, 256). *)
Definition byte_of_Z (z : Z) : byte :=
  match Byte.of_N (Z.to_N z) with
  | Some b => b
  | None => x00
  end.

(** The code points of a text of characters below 256. *)
Definition text (s : string) : str := map bv (list_byte_of_string s).

(** The bytes of a literal [b'...']. *)
Definition blit (s : string) : bytes := list_byte_of_string s.

(** *** [bytes.split(sep)] for a separator of one byte *)

Fixpoint bytes_split (sep : byte) (l : bytes) : list bytes :=
  match l with
  | [] => [[]]
  | x :: r =>
      if Byte.eqb x sep then [] :: bytes_split sep r
      else match bytes_split sep r with
           | h :: t => (x :: h) :: t
           | [] => [[x]]
           end
  end.

(** *** [bytes.decode('utf-8')], strict *)

Definition is_cont (z : Z) : bool := (0x80 <=? z) && (z <=? 0xBF).

(** The range of the second byte depends on the lead byte: no overlong
    forms, no surrogates, nothing above U+10FFFF. *)
Definition second_ok3 (z0 z1 : Z) : bool :=
  if z0 =? 0xE0 then (0xA0 <=? z1) && (z1 <=? 0xBF)
  else if z0 =? 0xED then (0x80 <=? z1) && (z1 <=? 0x9F)
  else is_cont z1.

Definition second_ok4 (z0 z1 : Z) : bool :=
  if z0 =? 0xF0 then (0x90 <=? z1) && (z1 <=? 0xBF)
  else if z0 =? 0xF4 then (0x80 <=? z1) && (z1 <=? 0x8F)
  else is_cont z1.

Definition cons_ok (c : Z) (r : result str) : result str :=
  let* s := r in Ok (c :: s).

Fixpoint utf8_decode (bs : bytes) : result str :=
  match bs with
  | [] => Ok []
  | b0 :: r0 =>
      let z0 := bv b0 in
      if z0 <? 0x80 then cons_ok z0 (utf8_decode r0)
      else if (0xC2 <=? z0) && (z0 <=? 0xDF) then
        match r0 with
        | b1 :: r1 =>
            if is_cont (bv b1)
            then cons_ok ((z0 - 0xC0) * 64 + (bv b1 - 0x80)) (utf8_decode r1)
            else Raise UnicodeDecodeError
        | _ => Raise UnicodeDecodeError
        end
      else if (0xE0 <=? z0) && (z0 <=? 0xEF) then
        match r0 with
        | b1 :: b2 :: r2 =>
            if second_ok3 z0 (bv b1) && is_cont (bv b2)
            then cons_ok ((z0 - 0xE0) * 4096 + (bv b1 - 0x80) * 64
                          + (bv b2 - 0x80)) (utf8_decode r2)
            else Raise UnicodeDecodeError
        | _ => Raise UnicodeDecodeError
        end
      else if (0xF0 <=? z0) && (z0 <=? 0xF4) then
        match r0 with
        | b1 :: b2 :: b3 :: r3 =>
            if second_ok4 z0 (bv b1) && is_cont (bv b2) && is_cont (bv b3)
            then cons_ok ((z0 - 0xF0) * 262144 + (bv b1 - 0x80) * 4096
                          + (bv b2 - 0x80) * 64 + (bv b3 - 0x80))
                         (utf8_decode r3)
            else Raise UnicodeDecodeError
        | _ => Raise UnicodeDecodeError
        end
      else Raise UnicodeDecodeError
  end.

(** *** [str.encode('utf-8')], strict: surrogates are refused *)

Definition utf8_encode_char (c : Z) : result bytes :=
  if (c <? 0) then Raise UnicodeEncodeError
  else if c <? 0x80 then Ok [byte_of_Z c]
  else if c <? 0x800 then
    Ok [byte_of_Z (0xC0 + c / 64); byte_of_Z (0x80 + c mod 64)]
  else if (0xD800 <=? c) && (c <=? 0xDFFF) then Raise UnicodeEncodeError
  else if c <? 0x10000 then
    Ok [byte_of_Z (0xE0 + c / 4096); byte_of_Z (0x80 + (c / 64) mod 64);
        byte_of_Z (0x80 + c mod 64)]
  else if c <? 0x110000 then
    Ok [byte_of_Z (0xF0 + c / 262144); byte_of_Z (0x80 + (c / 4096) mod 64);
        byte_of_Z (0x80 + (c / 64) mod 64); byte_of_Z (0x80 + c mod 64)]
  else Raise UnicodeEncodeError.

Fixpoint utf8_encode (s : str) : result bytes :=
  match s with
  | [] => Ok []
  | c :: r =>
      let* h := utf8_encode_char c in
      let* t := utf8_encode r in
      Ok (h ++ t)
  end.

(** *** [str.split(sep, 1)] for a separator of one character *)

Fixpoint str_split1 (sep : Z) (s : str) : list str :=
  match s with
  | [] => [[]]
  | c :: r =>
      if c =? sep then [[]; r]
      else match str_split1 sep r with
           | h :: t => (c :: h) :: t
           | [] => [[c]]
           end
  end.

(** [a, b = l]: unpacking into two names. *)
Definition unpack2 (l : list str) : result (str * str) :=
  match l with
  | [a; b] => Ok (a, b)
  | _ => Raise ValueError
  end.

(** *** [str.strip()] *)

(** [str.isspace] on one character. *)
Definition isspace (c : Z) : bool :=
  ((0x09 <=? c) && (c <=? 0x0D)) || ((0x1C <=? c) && (c <=? 0x20))
  || (c =? 0x85) || (c =? 0xA0) || (c =? 0x1680)
  || ((0x2000 <=? c) && (c <=? 0x200A))
  || (c =? 0x2028) || (c =? 0x2029) || (c =? 0x202F) || (c =? 0x205F)
  || (c =? 0x3000).

Fixpoint lstrip (s : str) : str :=
  match s with
  | [] => []
  | c :: r => if isspace c then lstrip r else s
  end.

Definition rstrip (s : str) : str := rev (lstrip (rev s)).

Definition strip (s : str) : str := rstrip (lstrip s).

(** *** Slices [s[i:j]] with Python's treatment of negative and
    out-of-range bounds *)

Definition slice_bound (len i : Z) : Z :=
  let i' := if i <? 0 then i + len else i in
  Z.max 0 (Z.min len i').

Definition slice {A : Type} (i j : Z) (s : list A) : list A :=
  let len := Z.of_nat (length s) in
  let lo := slice_bound len i in
  let hi := slice_bound len j in
  firstn (Z.to_nat (hi - lo)) (skipn (Z.to_nat lo) s).

(** *** [dict]: insertion-ordered; [d[k] = v] keeps the position of a key
    that is already there *)

Definition dict := list (str * str).

Fixpoint str_eqb (a b : str) : bool :=
  match a, b with
  | [], [] => true
  | x :: a', y :: b' => (x =? y) && str_eqb a' b'
  | _, _ => false
  end.

Fixpoint dict_set (d : dict) (k v : str) : dict :=
  match d with
  | [] => [(k, v)]
  | (k', v') :: r =>
      if str_eqb k' k then (k, v) :: r else (k', v') :: dict_set r k v
  end.

(* ===================================================================== *)
(** ** [parse_icy]                                                       *)
(* ===================================================================== *)

(** The body of the loop of [parse_icy] for one [var]. *)
Definition parse_icy_field (dta : dict) (var : bytes) : result dict :=
  match var with
  | [] => Ok dta
  | _ =>
      let* s := utf8_decode var in
      let* (varName, varValue) := unpack2 (str_split1 61 s) in
      let varValue := slice 1 (-1) (strip varValue) in
      Ok (dict_set dta varName varValue)
  end.

Fixpoint parse_icy_loop (dta : dict) (vars : list bytes) : result dict :=
  match vars with
  | [] => Ok dta
  | var :: r =>
      let* dta' := parse_icy_field dta var in
      parse_icy_loop dta' r
  end.

Definition parse_icy (metadata : bytes) : result dict :=
  parse_icy_loop [] (bytes_split ";"%byte metadata).

(* ===================================================================== *)
(** ** Header text: [str.lower], [str.startswith], [int]                 *)
(* ===================================================================== *)

(** [str.lower] on one character below 256: the letters A-Z and the
    capital letters of Latin-1. *)
Definition lower_char (a : ascii) : ascii :=
  let n := Z.of_N (N_of_ascii a) in
  if ((0x41 <=? n) && (n <=? 0x5A))
     || ((0xC0 <=? n) && (n <=? 0xDE) && negb (n =? 0xD7))
  then ascii_of_N (Z.to_N (n + 0x20)) else a.

Fixpoint lower (s : string) : string :=
  match s with
  | EmptyString => EmptyString
  | String a r => String (lower_char a) (lower r)
  end.

Definition startswith (s p : string) : bool := String.prefix p s.

Definition digit_val (c : Z) : option Z :=
  if (48 <=? c) && (c <=? 57) then Some (c - 48) else None.

(** The digits after the first one; one underscore may stand between two
    digits. *)
Fixpoint int_digits (acc : Z) (s : str) : option Z :=
  match s with
  | [] => Some acc
  | c :: r =>
      if c =? 95 then
        match r with
        | d :: r' =>
            match digit_val d with
            | Some v => int_digits (acc * 10 + v) r'
            | None => None
            end
        | [] => None
        end
      else
        match digit_val c with
        | Some v => int_digits (acc * 10 + v) r
        | None => None
        end
  end.

Definition int_unsigned (s : str) : option Z :=
  match s with
  | c :: r =>
      match digit_val c with
      | Some v => int_digits v r
      | None => None
      end
  | [] => None
  end.

(** The whitespace that [int] passes over at both ends of its argument:
    below 127 the six characters of C's [isspace], from 127 on the
    whitespace of Unicode. (The separators U+001C to U+001F, which
    [str.strip] removes, are no whitespace for [int].) *)
Definition int_isspace (c : Z) : bool :=
  ((0x09 <=? c) && (c <=? 0x0D)) || (c =? 0x20)
  || ((127 <=? c) && isspace c).

Fixpoint int_lstrip (s : str) : str :=
  match s with
  | [] => []
  | c :: r => if int_isspace c then int_lstrip r else s
  end.

Definition int_strip (s : str) : str :=
  rev (int_lstrip (rev (int_lstrip s))).

(** The digits that count for the limit of the conversion: the characters
    of the numeral without its underscores. *)
Definition count_digits (u : str) : Z :=
  Z.of_nat (length (List.filter (fun c => negb (c =? 95)) u)).

(** [int(s)] for a text [s] of characters below 256: surrounding
    whitespace, an optional sign, and decimal digits with single
    underscores between them; anything else is a [ValueError]. (Below 256
    the decimal digits are the ASCII ones.) A numeral of more than 640
    digits is refused with [ValueError] as well when it has more digits than
    [max_str_digits], the limit of the interpreter, where 0 stands for no
    limit. *)
Definition py_int (max_str_digits : Z) (s : string) : result Z :=
  let t := int_strip (text s) in
  let u := match t with
           | 43 :: u => u
           | 45 :: u => u
           | _ => t
           end in
  let r := match t with
           | 45 :: _ => option_map Z.opp (int_unsigned u)
           | _ => int_unsigned u
           end in
  match r with
  | Some z =>
      if (640 <? count_digits u) && (0 <? max_str_digits)
         && (max_str_digits <? count_digits u)
      then Raise ValueError
      else Ok z
  | None => Raise ValueError
  end.

(* ===================================================================== *)
(** ** The response, the files and the world                             *)
(* ===================================================================== *)

(** What [record_worker] uses of the object that [urlopen] returns. A read
    may raise, and moves the connection on in either case. *)
Class HTTPResponse (C : Type) := {
  getheaders : C -> list (string * string);
  conn_read : Z -> C -> result bytes * C;
  conn_closed : C -> bool
}.

Fixpoint join_values (l : list string) : string :=
  match l with
  | [] => EmptyString
  | [v] => v
  | v :: r => v +:+ ", " +:+ join_values r
  end.

(** [conn.getheader(name)]: the values of all the headers of that name,
    compared without case, joined by a comma; [None] when there is none. *)
Definition getheader {C} `{HTTPResponse C} (c : C) (name : string)
  : option string :=
  match List.filter (fun kv => String.eqb (lower (fst kv)) (lower name))
                    (getheaders c) with
  | [] => None
  | l => Some (join_values (map snd l))
  end.

(** A file that was opened for writing. [f_dirty] says that something was
    written since the last flush; [f_public] that [os.chmod] widened the
    permissions. Opening, writing, flushing and closing are taken to
    succeed. *)
Record File : Type := {
  f_data : bytes;
  f_dirty : bool;
  f_closed : bool;
  f_public : bool
}.

Record World (C : Type) : Type := {
  fs : gmap string File;
  stdout : list str;
  conn : C;
  stoprec : bool
}.
Arguments fs {C} w.
Arguments stdout {C} w.
Arguments conn {C} w.
Arguments stoprec {C} w.

Definition set_fs {C} (f : gmap string File -> gmap string File)
  (w : World C) : World C :=
  {| fs := f (fs w); stdout := stdout w; conn := conn w;
     stoprec := stoprec w |}.

(** [open(name, 'wb')]: the file is created, or emptied. *)
Definition file_open (name : string) (m : gmap string File)
  : gmap string File :=
  <[name := {| f_data := []; f_dirty := false; f_closed := false;
               f_public := match m !! name with
                           | Some f => f_public f
                           | None => false
                           end |}]> m.

Definition file_write (name : string) (b : bytes) (m : gmap string File)
  : gmap string File :=
  alter (fun f => {| f_data := f_data f ++ b; f_dirty := true;
                     f_closed := f_closed f; f_public := f_public f |})
        name m.

Definition file_flush (name : string) (m : gmap string File)
  : gmap string File :=
  alter (fun f => {| f_data := f_data f; f_dirty := false;
                     f_closed := f_closed f; f_public := f_public f |})
        name m.

Definition file_close (name : string) (m : gmap string File)
  : gmap string File :=
  alter (fun f => {| f_data := f_data f; f_dirty := false;
                     f_closed := true; f_public := f_public f |})
        name m.

Definition file_chmod_public (name : string) (m : gmap string File)
  : gmap string File :=
  alter (fun f => {| f_data := f_data f; f_dirty := f_dirty f;
                     f_closed := f_closed f; f_public := true |})
        name m.

(** *** The monad of [record_worker]: the world is threaded through, and is
    kept when an exception is raised *)

Definition M (C A : Type) : Type := World C -> result A * World C.

Definition ret {C A} (a : A) : M C A := fun w => (Ok a, w).
Definition raise {C A} (e : exn) : M C A := fun w => (Raise e, w).
Definition lift {C A} (r : result A) : M C A := fun w => (r, w).

Definition mbind {C A B} (m : M C A) (k : A -> M C B) : M C B :=
  fun w => match m w with
           | (Ok a, w') => k a w'
           | (Raise e, w') => (Raise e, w')
           end.

Notation "'let!' x ':=' m 'in' k" := (mbind m (fun x => k))
  (at level 10, x pattern, m at level 100, k at level 200).
Notation "m ';;;' k" := (mbind m (fun _ => k))
  (at level 100, k at level 200, right associativity).

Definition on_fs {C} (f : gmap string File -> gmap string File)
  : M C unit :=
  fun w => (Ok tt, set_fs f w).

Definition print {C} (line : str) : M C unit :=
  fun w => (Ok tt, {| fs := fs w; stdout := stdout w ++ [line];
                      conn := conn w; stoprec := stoprec w |}).

Definition read {C} `{HTTPResponse C} (n : Z) : M C bytes :=
  fun w => let (r, c) := conn_read n (conn w) in
           (r, {| fs := fs w; stdout := stdout w; conn := c;
                  stoprec := stoprec w |}).

(* ===================================================================== *)
(** ** [record_worker]                                                   *)
(* ===================================================================== *)

(** The arguments of the command line that [record_worker] reads. *)
Record Args : Type := {
  station : string;
  name : option string;
  icy : bool;
  public : bool;
  verbose : bool
}.

(** What the platform, the interpreter and the clock give: [os.sep],
    [os.linesep], [sys.get_int_max_str_digits()] (0 where the interpreter
    has no limit), the formatted time of the start, and the elapsed minutes
    as they are formatted at the n-th passage of the loop. *)
Record Env : Type := {
  os_sep : string;
  os_linesep : string;
  int_max_str_digits : Z;
  cur_dt_string : string;
  elapsed : nat -> string
}.

(** The headers of the request (lines 83-87). *)
Definition request_headers (args : Args) : list (string * string) :=
  ("User-Agent", "RadioRec")%string
  :: (if icy args then [("Icy-MetaData", "1")%string] else []).

Definition verboseprint {C} (args : Args) (line : str) : M C unit :=
  if verbose args then print line else ret tt.

(** Lines 95-98: the name of the recording without its extension. *)
Definition base_filename (env : Env) (target_dir : string) (args : Args)
  : string :=
  let filename :=
    target_dir +:+ os_sep env +:+ cur_dt_string env +:+ "_" +:+ station args in
  match name args with
  | Some n => if String.eqb n "" then filename else filename +:+ "_" +:+ n
  | None => filename
  end.

(** The double quote character. *)
Definition dquote : string := String (ascii_of_N 34) EmptyString.

(** Lines 99-111: the extension for the content type. The message for an
    unknown type is built by concatenation, which raises on [None]. *)
Definition add_extension {C} (content_type : option string)
  (filename : string) : M C string :=
  if bool_decide (content_type = Some "audio/mpeg"%string)
  then ret (filename +:+ ".mp3")
  else if bool_decide (content_type = Some "application/aacp"%string)
          || bool_decide (content_type = Some "audio/aacp"%string)
          || bool_decide (content_type = Some "audio/aac"%string)
  then ret (filename +:+ ".aac")
  else if bool_decide (content_type = Some "application/ogg"%string)
          || bool_decide (content_type = Some "audio/ogg"%string)
  then ret (filename +:+ ".ogg")
  else if bool_decide (content_type = Some "audio/x-mpegurl"%string)
  then print (text "Sorry, M3U playlists are currently not supported") ;;;
       raise SystemExit
  else match content_type with
       | None => raise TypeError
       | Some ct =>
           print (text ("Unknown content type " +:+ dquote +:+ ct
                        +:+ dquote +:+ ". Assuming mp3.")) ;;;
           ret (filename +:+ ".mp3")
       end.

(** Line 114. *)
Definition icy_header_keys {C} `{HTTPResponse C} (c : C) : list string :=
  map fst (List.filter (fun kv => startswith (lower (fst kv)) "icy-")
                       (getheaders c)).

(** Lines 117-120. [None] of the source is [None] here. The test of line
    118 compares the names as the server sent them; [int(None)] would be a
    [TypeError]. *)
Definition read_icyMetaint {C} `{HTTPResponse C} (env : Env) (args : Args)
  (c : C) : result (option Z) :=
  if icy args then
    if bool_decide ("icy-metaint"%string ∈ icy_header_keys c) then
      match getheader c "icy-metaint" with
      | Some v => let* n := py_int (int_max_str_digits env) v in Ok (Some n)
      | None => Raise TypeError
      end
    else Ok None
  else Ok (Some 0).

(** The truth of [icyMetaint] in a condition. *)
Definition truthy (icyMetaint : option Z) : bool :=
  match icyMetaint with
  | Some n => negb (n =? 0)
  | None => false
  end.

(** Lines 121-123. *)
Definition read_length (icyMetaint : option Z) : Z :=
  match icyMetaint with
  | Some n => if truthy icyMetaint then n else 1024
  | None => 1024
  end.

(** The local variables that the loop reads. *)
Record Session : Type := {
  filename : string;
  metaTarget : option string;
  icyMetaint : option Z;
  readLength : Z;
  passage : nat
}.

(** ['{0}'.format(x)] for a header value. *)
Definition format_value (v : option string) : string :=
  match v with
  | Some s => s
  | None => "None"
  end.

(** Lines 128-132. *)
Fixpoint write_header_lines {C} `{HTTPResponse C} (env : Env) (args : Args)
  (metaName : string) (keys : list string) : M C unit :=
  match keys with
  | [] => ret tt
  | keyName :: r =>
      let! v := (fun w => (Ok (getheader (conn w) keyName), w)) in
      let metaLine := keyName +:+ ": " +:+ format_value v in
      verboseprint args (text metaLine) ;;;
      let! b := lift (utf8_encode (text (metaLine +:+ os_linesep env))) in
      on_fs (file_write metaName b) ;;;
      write_header_lines env args metaName r
  end.

(** Lines 93-141: from the response to the first test of the loop. The
    connection of the world is the response that [urlopen] returned at
    line 93. The audio file is open when this returns. An exception in
    lines 137-141 would leave the [with] block; none of these lines raises
    here. *)
Definition record_worker_start {C} `{HTTPResponse C} (env : Env)
  (target_dir : string) (args : Args) : M C Session :=
  let base := base_filename env target_dir args in
  let metaFilename := base +:+ ".meta" in
  let! content_type := (fun w => (Ok (getheader (conn w) "Content-Type"), w)) in
  let! filename := add_extension content_type base in
  let! keys := (fun w => (Ok (icy_header_keys (conn w)), w)) in
  let! icyMetaint := (fun w => (read_icyMetaint env args (conn w), w)) in
  let readLength := read_length icyMetaint in
  let! metaTarget :=
    (if icy args && truthy icyMetaint then
       on_fs (file_open metaFilename) ;;;
       write_header_lines env args metaFilename keys ;;;
       ret (Some metaFilename)
     else ret None) in
  on_fs (file_open filename) ;;;
  (if public args then
     verboseprint args (text "Apply public write permissions (Linux only)") ;;;
     on_fs (file_chmod_public filename)
   else ret tt) ;;;
  verboseprint args (text ("Recording " +:+ station args +:+ "...")) ;;;
  ret {| filename := filename; metaTarget := metaTarget;
         icyMetaint := icyMetaint; readLength := readLength;
         passage := 0 |}.

(** [ord(b)] for a [bytes] value: its length must be one. *)
Definition ord (b : bytes) : result Z :=
  match b with
  | [x] => Ok (bv x)
  | _ => Raise TypeError
  end.

(** Lines 150-158. *)
Fixpoint write_meta_lines {C} (env : Env) (args : Args) (s : Session)
  (items : dict) : M C unit :=
  match items with
  | [] => ret tt
  | (keyName, keyValue) :: r =>
      let metaLine := text "[" ++ text (elapsed env (passage s)) ++ text "] "
                      ++ keyName ++ text ": " ++ keyValue in
      verboseprint args metaLine ;;;
      match metaTarget s with
      | Some m =>
          let! b := lift (utf8_encode (metaLine ++ text (os_linesep env))) in
          on_fs (file_write m b) ;;;
          on_fs (file_flush m)
      | None => ret tt
      end ;;;
      write_meta_lines env args s r
  end.

(** Lines 143-158: the body of the loop. *)
Definition loop_body {C} `{HTTPResponse C} (env : Env) (args : Args)
  (s : Session) : M C unit :=
  let! chunk := read (readLength s) in
  on_fs (file_write (filename s) chunk) ;;;
  if icy args && truthy (icyMetaint s) then
    let! b := read 1 in
    let! n := lift (ord b) in
    let metalength := n * 16 in
    if metalength >? 0 then
      let! raw := read metalength in
      let metadata := List.filter (fun x => negb (Byte.eqb x x00)) raw in
      match metadata with
      | [] => ret tt
      | _ =>
          let! items := lift (parse_icy metadata) in
          write_meta_lines env args s items
      end
    else ret tt
  else ret tt.

(** Where the worker is: in the loop, or out of it by [return] or by an
    exception. *)
Inductive Phase : Type :=
| Streaming (s : Session)
| Returned
| Raised (e : exn).

Definition terminated (p : Phase) : bool :=
  match p with
  | Streaming _ => false
  | _ => true
  end.

Definition next_passage (s : Session) : Session :=
  {| filename := filename s; metaTarget := metaTarget s;
     icyMetaint := icyMetaint s; readLength := readLength s;
     passage := S (passage s) |}.

(** Lines 160-162. *)
Definition close_meta (args : Args) (s : Session) (m : gmap string File)
  : gmap string File :=
  match metaTarget s with
  | Some n => if icy args then file_close n (file_flush n m) else m
  | None => m
  end.

(** One test of the loop condition (line 142) and what follows it: a
    passage of the body, or the end of the [with] block and lines 160-162.
    An exception in the body leaves the [with] block, which closes the
    audio file, and ends the worker. *)
Definition record_worker_step {C} `{HTTPResponse C} (env : Env) (args : Args)
  (st : Phase * World C) : Phase * World C :=
  match st with
  | (Streaming s, w) =>
      if negb (stoprec w) && negb (conn_closed (conn w)) then
        match loop_body env args s w with
        | (Ok _, w') => (Streaming (next_passage s), w')
        | (Raise e, w') => (Raised e, set_fs (file_close (filename s)) w')
        end
      else
        (Returned,
         set_fs (close_meta args s) (set_fs (file_close (filename s)) w))
  | _ => st
  end.

(** The worker from the response on, for [n] tests of the loop
    condition. *)
Definition record_worker_begin {C} `{HTTPResponse C} (env : Env)
  (target_dir : string) (args : Args) (w : World C) : Phase * World C :=
  match record_worker_start env target_dir args w with
  | (Ok s, w') => (Streaming s, w')
  | (Raise e, w') => (Raised e, w')
  end.

Fixpoint steps {C} `{HTTPResponse C} (env : Env) (args : Args) (n : nat)
  (st : Phase * World C) : Phase * World C :=
  match n with
  | O => st
  | S k => steps env args k (record_worker_step env args st)
  end.

Definition record_worker {C} `{HTTPResponse C} (env : Env)
  (target_dir : string) (args : Args) (n : nat) (w : World C)
  : Phase * World C :=
  steps env args n (record_worker_begin env target_dir args w).

(* ===================================================================== *)
(** ** The end of [record]                                               *)
(* ===================================================================== *)

(** [stoprec.set()]. *)
Definition Event_set {C} (w : World C) : World C :=
  {| fs := fs w; stdout := stdout w; conn := conn w; stoprec := true |}.

(** Lines 193-194. [recthread.is_alive] is written without parentheses:
    the condition tests the bound method, which is true whether or not the
    thread has ended. *)
Definition is_alive_attribute (p : Phase) : bool := true.

Definition record_after_join {C} (st : Phase * World C) : Phase * World C :=
  if is_alive_attribute (fst st) then (fst st, Event_set (snd st)) else st.

(* ===================================================================== *)
(** ** A response for the examples                                       *)
(* ===================================================================== *)

(** A response of [http.client] without [Content-Length] and without
    chunks, whose body is a given list of bytes. [sc_fp_open] says that the
    file of the socket is still held ([fp] is not [None]); [sc_closed] is
    the attribute [closed], which only [close()] sets: no read changes it.
    A read of [n >= 0] bytes gives the next [n] bytes, fewer at the end of
    the body, and [read(-1)] gives all that is left; a read of another
    negative length raises. A read for a length other than 0 that gets
    nothing lets go of the file, and from then on every read gives the
    empty bytes. *)
Record Scripted : Type := {
  sc_headers : list (string * string);
  sc_body : bytes;
  sc_fp_open : bool;
  sc_closed : bool
}.

Definition scripted_read (n : Z) (c : Scripted) : result bytes * Scripted :=
  if negb (sc_fp_open c) then (Ok [], c)
  else if n <? -1 then (Raise ValueError, c)
  else
    let k := Z.to_nat n in
    let data := if n =? -1 then sc_body c else firstn k (sc_body c) in
    let rest := if n =? -1 then [] else skipn k (sc_body c) in
    (Ok data,
     {| sc_headers := sc_headers c; sc_body := rest;
        sc_fp_open := match data with
                      | [] => n =? 0
                      | _ => true
                      end;
        sc_closed := sc_closed c |}).

#[export] Instance Scripted_response : HTTPResponse Scripted := {
  getheaders := sc_headers;
  conn_read := scripted_read;
  conn_closed := sc_closed
}.

Definition world0 (headers : list (string * string)) (body : bytes)
  : World Scripted :=
  {| fs := ∅; stdout := [];
     conn := {| sc_headers := headers; sc_body := body; sc_fp_open := true; sc_closed := false |};
     stoprec := false |}.

Definition env0 : Env :=
  {| os_sep := "/"; os_linesep := String (ascii_of_N 10) EmptyString;
     int_max_str_digits := 4300;
     cur_dt_string := "2024-03-01T10_00_00"; elapsed := fun _ => "0.00" |}.

Definition args0 (use_icy : bool) : Args :=
  {| station := "jazz"; name := None; icy := use_icy; public := false;
     verbose := false |}.

(* ===================================================================== *)
(** ** Notions and data for the properties                              *)
(* ===================================================================== *)

(** What is printed for a playlist (line 107). *)
Definition m3u_message : str :=
  text "Sorry, M3U playlists are currently not supported".

(** A computation that creates no file and removes none. *)
Definition keeps_files {C A} (m : M C A) : Prop :=
  forall w, dom (fs (snd (m w))) = dom (fs w).

(** The condition of lines 125 and 144: metadata was asked for and
    [icyMetaint] is true. *)
Definition metadata_mode (args : Args) (m : option Z) : bool :=
  icy args && truthy m.

(** The names of the headers spell [icy-metaint] in lower case, when they
    have it. *)
Definition metaint_name_lower {C} `{HTTPResponse C} (c : C) : Prop :=
  forall k, k ∈ map fst (getheaders c) ->
            lower k = "icy-metaint"%string -> k = "icy-metaint"%string.

(** The headers of an MP3 stream that announces a metadata interval. *)
Definition hdr_mpeg_metaint (v : string) : list (string * string) :=
  [("Content-Type", "audio/mpeg"); ("icy-metaint", v)]%string.

(** The headers of a playlist that announces a metadata interval. *)
Definition hdr_m3u_metaint : list (string * string) :=
  [("Content-Type", "audio/x-mpegurl"); ("icy-metaint", "8192")]%string.

(** The sidecar and the audio file of the examples. *)
Definition meta0 : string := "/tmp/2024-03-01T10_00_00_jazz.meta".

(** A metadata block is malformed when one of its fields that is not empty
    is no UTF-8 text or has no [=]. *)
Definition malformed (metadata : bytes) : Prop :=
  exists field, field ∈ bytes_split ";"%byte metadata
    /\ field <> []
    /\ ((exists e, utf8_decode field = Raise e)
        \/ (exists s, utf8_decode field = Ok s /\ 61 ∉ s)).




Definition audio0 : string := "/tmp/2024-03-01T10_00_00_jazz.mp3".

(** The text of one pair, [key='value';], and the encoding of a mapping
    that the round trip starts from: the pairs in the order of the
    mapping, concatenated and encoded as UTF-8. *)
Definition icy_pair_text (kv : str * str) : str :=
  fst kv ++ text "='" ++ snd kv ++ text "';".

Definition icy_encode (m : dict) : result bytes :=
  utf8_encode (concat (map icy_pair_text m)).

(** The mapping of the example of the specification. *)
Definition dict_example : dict :=
  [(text "StreamTitle", text "Artist - Song"); (text "StreamUrl", text "")].

(** What is printed for a content type that is not known (line 110). *)
Definition unknown_type_warning (t : string) : str :=
  text ("Unknown content type " +:+ dquote +:+ t +:+ dquote
        +:+ ". Assuming mp3.").

(** The world after one more line of output. *)
Definition with_output {C} (w : World C) (line : str) : World C :=
  {| fs := fs w; stdout := stdout w ++ [line]; conn := conn w;
     stoprec := stoprec w |}.

(** A response that is a playlist. *)
Definition world_m3u : World Scripted :=
  world0 [("Content-Type", "audio/x-mpegurl")]%string (blit "#EXTM3U").

(** A capture in metadata mode that has ended: one byte of audio, then the
    end of the stream, where the read of the length byte gives nothing and
    [ord] raises. *)
Definition world_ended : Phase * World Scripted :=
  record_worker env0 "/tmp" (args0 true) 2
    (world0 (hdr_mpeg_metaint "1") (blit "a")).

(** A capture without metadata that is in its loop, with the event set
    already. *)
Definition world_signalled : Phase * World Scripted :=
  let st := record_worker env0 "/tmp" (args0 false) 1
              (world0 [("Content-Type", "audio/mpeg")]%string (blit "abc")) in
  (fst st, Event_set (snd st)).

(* ===================================================================== *)
(** ** Lookups, valid text and the lines of the sidecar                  *)
(* ===================================================================== *)

(** [d.get(k)]: the value of a key. *)
Fixpoint dict_get (d : dict) (k : str) : option str :=
  match d with
  | [] => None
  | (k', v') :: r => if str_eqb k' k then Some v' else dict_get r k
  end.

(** A code point that a [str] can hold and UTF-8 can encode: in range and
    no surrogate. *)
Definition valid_cp (c : Z) : Prop :=
  0 <= c < 0x110000 /\ ~ (0xD800 <= c <= 0xDFFF).

(** The property of the pairs that [parse_icy] returns. *)
Definition clean_pair (kv : str * str) : Prop :=
  Forall (fun c => valid_cp c /\ c <> 59 /\ c <> 61) (fst kv)
  /\ Forall (fun c => valid_cp c /\ c <> 59) (snd kv).

(** Lines 136-141, for the names that the lines before have fixed. *)
Definition start_tail {C} (args : Args) (fn : string) (mt : option string)
  (m : option Z) : M C Session :=
  on_fs (file_open fn) ;;;
  (if public args then
     verboseprint args (text "Apply public write permissions (Linux only)") ;;;
     on_fs (file_chmod_public fn)
   else ret tt) ;;;
  verboseprint args (text ("Recording " +:+ station args +:+ "...")) ;;;
  ret {| filename := fn; metaTarget := mt; icyMetaint := m;
         readLength := read_length m; passage := 0 |}.

(** The line of the sidecar for a header (lines 130 and 132), as text. *)
Definition header_line {C} `{HTTPResponse C} (env : Env) (c : C)
  (keyName : string) : str :=
  text ((keyName +:+ ": " +:+ format_value (getheader c keyName))
        +:+ os_linesep env).



(* ===================================================================== *)
(** ** [record]: the playlist (lines 175-183)                            *)
(* ===================================================================== *)

(** How the lines can end: with a value, with an exception of the kinds
    above, or with the [UnboundLocalError] of reading a local variable that
    no statement has assigned. *)
Inductive outcome (A : Type) : Type :=
| Done (a : A)
| Raises (e : exn)
| UnboundLocalError.
Arguments Done {A} a.
Arguments Raises {A} e.
Arguments UnboundLocalError {A}.

(** [for line in remotefile]: the lines of the response, each with its
    [\n]; a last line without one is a line as well. *)
Fixpoint readline_loop (cur bs : bytes) : list bytes :=
  match bs with
  | [] => match cur with [] => [] | _ => [cur] end
  | b :: r =>
      if Byte.eqb b x0a then (cur ++ [b]) :: readline_loop [] r
      else readline_loop (cur ++ [b]) r
  end.

Definition iter_lines (remotefile : bytes) : list bytes :=
  readline_loop [] remotefile.

(** [s.startswith(p)] and [s.endswith(p)] for texts. *)
Fixpoint str_startswith (s p : str) {struct p} : bool :=
  match p, s with
  | [], _ => true
  | c :: p', d :: s' => (c =? d) && str_startswith s' p'
  | _ :: _, [] => false
  end.

Definition str_endswith (s p : str) : bool :=
  str_startswith (rev s) (rev p).

(** Lines 178-181: the loop over the lines. The result is the local
    variable [tmpstr] when the loop is left, [None] while unassigned. *)
Fixpoint playlist_loop (lines : list bytes) : result (option str) :=
  match lines with
  | [] => Ok None
  | line :: rest =>
      let* t := utf8_decode line in
      if negb (str_startswith t (text "#"))
         && (1 <? Z.of_nat (length line)) then
        let* tmpstr := utf8_decode line in
        Ok (Some tmpstr)
      else playlist_loop rest
  end.

(** Lines 175-183: from the address of the station to the address of the
    stream, for the content [remotefile] of the playlist. *)
Definition record_streamurl {C} (args : Args) (streamurl : str)
  (remotefile : bytes) (w : World C) : outcome str * World C :=
  if str_endswith streamurl (text ".m3u") then
    let w1 :=
      snd (verboseprint args
             (text "Seems to be an M3U playlist. Trying to parse...") w) in
    match playlist_loop (iter_lines remotefile) with
    | Raise e => (Raises e, w1)
    | Ok None => (UnboundLocalError, w1)
    | Ok (Some tmpstr) =>
        (Done tmpstr,
         snd (verboseprint args (text "stream url: " ++ tmpstr) w1))
    end
  else
    (Done streamurl,
     snd (verboseprint args (text "stream url: " ++ streamurl) w)).

(** A computation that neither reads nor changes the event: with the event
    set it does what it does otherwise. *)
Definition ignores_event {C A} (m : M C A) : Prop :=
  forall w, m (Event_set w) = (fst (m w), Event_set (snd (m w))).

(** A line of a playlist that the loop passes over: a whole line that is
    UTF-8 text and either begins with [#] or is the line end alone. *)
Definition skipped_line (line : bytes) : Prop :=
  exists p t, line = p ++ [x0a]
    /\ Forall (fun b => Byte.eqb b x0a = false) p
    /\ utf8_decode line = Ok t
    /\ (str_startswith t (text "#") = true \/ p = []).

(* ===================================================================== *)
(** ** Data for the further properties                                   *)
(* ===================================================================== *)

(** The block of the example of [parse_icy]. *)
Definition block_example : bytes :=
  blit "StreamTitle='Artist - Song';StreamUrl='';".

(** The session of a capture into [audio0] with a sidecar, for a metadata
    interval of one byte. *)
Definition session_icy1 : Session :=
  {| filename := audio0; metaTarget := Some meta0; icyMetaint := Some 1;
     readLength := 1; passage := 0 |}.

(** The world at the first test of the loop, for a response that announces
    a metadata interval of one byte and has the body [body]. *)
Definition world_icy1 (body : bytes) : World Scripted :=
  snd (record_worker_start env0 "/tmp" (args0 true)
         (world0 (hdr_mpeg_metaint "1") body)).

(** Three bytes of audio, a length byte of zero after the first two. *)
Definition body_zero : bytes :=
  blit "a" ++ [x00] ++ blit "b" ++ [x00] ++ blit "c".


(** A block of sixteen bytes with one pair between two bytes of audio. *)
Definition body_title : bytes :=
  blit "a" ++ [x01] ++ blit "StreamTitle='A';" ++ blit "b".


(** A playlist: a comment, an empty line, the address of a stream and
    another address. *)
Definition playlist_address : str := text "http://example.org/jazz.m3u".
Definition playlist_head : list bytes :=
  [blit "#EXTM3U" ++ [x0a]; [x0a]].
Definition stream_address : string := "http://example.org/stream".
Definition playlist_tail : bytes := blit "http://example.org/other" ++ [x0a].

(* ===================================================================== *)
(** * Properties                                                         *)
(* ===================================================================== *)

(* --------------------------------------------------------------------- *)
(** ** Bytes                                                            *)
(* --------------------------------------------------------------------- *)

Lemma bv_range (b : byte) : 0 <= bv b < 256.
Proof.
  unfold bv. pose proof (Byte.to_N_bounded b) as Hb. lia.
Qed.

Lemma bv_byte_of_Z (z : Z) : 0 <= z < 256 -> bv (byte_of_Z z) = z.
Proof.
  intros Hz. unfold bv, byte_of_Z.
  destruct (Byte.of_N (Z.to_N z)) as [b|] eqn:Hb.
  - apply Byte.to_of_N in Hb. rewrite Hb. lia.
  - apply Byte.of_N_None_iff in Hb. lia.
Qed.

Lemma byte_of_Z_bv (b : byte) : byte_of_Z (bv b) = b.
Proof.
  unfold bv, byte_of_Z. rewrite N2Z.id, Byte.of_to_N. reflexivity.
Qed.

(* --------------------------------------------------------------------- *)
(** ** UTF-8                                                            *)
(* --------------------------------------------------------------------- *)

Lemma utf8_decode_cons (b0 : byte) (r0 : bytes) :
  utf8_decode (b0 :: r0) =
  let z0 := bv b0 in
  if z0 <? 0x80 then cons_ok z0 (utf8_decode r0)
  else if (0xC2 <=? z0) && (z0 <=? 0xDF) then
    match r0 with
    | b1 :: r1 =>
        if is_cont (bv b1)
        then cons_ok ((z0 - 0xC0) * 64 + (bv b1 - 0x80)) (utf8_decode r1)
        else Raise UnicodeDecodeError
    | _ => Raise UnicodeDecodeError
    end
  else if (0xE0 <=? z0) && (z0 <=? 0xEF) then
    match r0 with
    | b1 :: b2 :: r2 =>
        if second_ok3 z0 (bv b1) && is_cont (bv b2)
        then cons_ok ((z0 - 0xE0) * 4096 + (bv b1 - 0x80) * 64
                      + (bv b2 - 0x80)) (utf8_decode r2)
        else Raise UnicodeDecodeError
    | _ => Raise UnicodeDecodeError
    end
  else if (0xF0 <=? z0) && (z0 <=? 0xF4) then
    match r0 with
    | b1 :: b2 :: b3 :: r3 =>
        if second_ok4 z0 (bv b1) && is_cont (bv b2) && is_cont (bv b3)
        then cons_ok ((z0 - 0xF0) * 262144 + (bv b1 - 0x80) * 4096
                      + (bv b2 - 0x80) * 64 + (bv b3 - 0x80))
                     (utf8_decode r3)
        else Raise UnicodeDecodeError
    | _ => Raise UnicodeDecodeError
    end
  else Raise UnicodeDecodeError.
Proof. reflexivity. Qed.

Ltac zcases :=
  repeat match goal with
  | |- context [?a <? ?b] =>
      destruct (Z.ltb_spec a b); try (exfalso; Z.div_mod_to_equations; lia)
  | |- context [?a <=? ?b] =>
      destruct (Z.leb_spec a b); try (exfalso; Z.div_mod_to_equations; lia)
  | |- context [?a =? ?b] =>
      destruct (Z.eqb_spec a b); try (exfalso; Z.div_mod_to_equations; lia)
  end.

Ltac zrange := Z.div_mod_to_equations; lia.

(** Decoding undoes the encoding of one character, whatever follows. *)
Lemma utf8_decode_encode_char (c : Z) (bs rest : bytes) :
  utf8_encode_char c = Ok bs ->
  utf8_decode (bs ++ rest) = cons_ok c (utf8_decode rest).
Proof.
  unfold utf8_encode_char.
  destruct (Z.ltb_spec c 0); [discriminate|].
  destruct (Z.ltb_spec c 0x80).
  { intros [= <-]. cbn [app]. rewrite utf8_decode_cons. cbv zeta.
    rewrite bv_byte_of_Z by lia. zcases. reflexivity. }
  destruct (Z.ltb_spec c 0x800).
  { intros [= <-]. cbn [app]. rewrite utf8_decode_cons. cbv zeta.
    unfold is_cont. rewrite !bv_byte_of_Z by zrange.
    zcases. cbn [andb]. f_equal. zrange. }
  assert (Hsur : (0xD800 <=? c) && (c <=? 0xDFFF) = true
                 \/ ((0xD800 <=? c) && (c <=? 0xDFFF) = false
                     /\ (c < 0xD800 \/ 0xDFFF < c))).
  { destruct (Z.leb_spec 0xD800 c); destruct (Z.leb_spec c 0xDFFF);
      cbn [andb]; auto; right; split; auto; lia. }
  destruct Hsur as [->|[-> Hsur]]; [discriminate|].
  destruct (Z.ltb_spec c 0x10000).
  { intros [= <-]. cbn [app]. rewrite utf8_decode_cons. cbv zeta.
    unfold second_ok3, is_cont. rewrite !bv_byte_of_Z by zrange.
    zcases; cbn [andb]; f_equal; zrange. }
  destruct (Z.ltb_spec c 0x110000); [|discriminate].
  intros [= <-]. cbn [app]. rewrite utf8_decode_cons. cbv zeta.
  unfold second_ok4, is_cont. rewrite !bv_byte_of_Z by zrange.
  zcases; cbn [andb]; f_equal; zrange.
Qed.

Lemma cons_ok_Ok (c : Z) (s : str) : cons_ok c (Ok s) = Ok (c :: s).
Proof. reflexivity. Qed.

(** Decoding undoes encoding, whatever follows. *)
Lemma utf8_decode_encode_app (s : str) (bs rest : bytes) (t : str) :
  utf8_encode s = Ok bs ->
  utf8_decode rest = Ok t ->
  utf8_decode (bs ++ rest) = Ok (s ++ t).
Proof.
  revert bs. induction s as [|c r IH]; intros bs; cbn [utf8_encode].
  - intros [= <-] Hr. exact Hr.
  - destruct (utf8_encode_char c) as [h|e] eqn:Hc; cbn [bind]; [|discriminate].
    destruct (utf8_encode r) as [tl|e] eqn:Hr; cbn [bind]; [|discriminate].
    intros [= <-] Hrest. rewrite <- app_assoc.
    rewrite (utf8_decode_encode_char c h _ Hc).
    rewrite (IH tl eq_refl Hrest). reflexivity.
Qed.

Lemma utf8_encode_app (s1 s2 : str) (b1 b2 : bytes) :
  utf8_encode s1 = Ok b1 -> utf8_encode s2 = Ok b2 ->
  utf8_encode (s1 ++ s2) = Ok (b1 ++ b2).
Proof.
  revert b1. induction s1 as [|c r IH]; intros b1; cbn [utf8_encode app].
  - intros [= <-] H2. exact H2.
  - destruct (utf8_encode_char c) as [h|e]; cbn [bind]; [|discriminate].
    destruct (utf8_encode r) as [tl|e]; cbn [bind]; [|discriminate].
    intros [= <-] H2. rewrite (IH tl eq_refl H2). cbn [bind].
    rewrite app_assoc. reflexivity.
Qed.

Lemma utf8_encode_app_inv (s1 s2 : str) (bs : bytes) :
  utf8_encode (s1 ++ s2) = Ok bs ->
  exists b1 b2, utf8_encode s1 = Ok b1 /\ utf8_encode s2 = Ok b2
                /\ bs = b1 ++ b2.
Proof.
  revert bs. induction s1 as [|c r IH]; intros bs; cbn [utf8_encode app].
  - intros H2. exists [], bs. auto.
  - destruct (utf8_encode_char c) as [h|e]; cbn [bind]; [|discriminate].
    destruct (utf8_encode (r ++ s2)) as [tl|e] eqn:Hr; cbn [bind];
      [|discriminate].
    intros [= <-]. destruct (IH tl eq_refl) as (b1 & b2 & -> & -> & ->).
    exists (h ++ b1), b2. cbn [bind]. rewrite app_assoc. auto.
Qed.

Lemma utf8_encode_text (s : string) : exists b, utf8_encode (text s) = Ok b.
Proof.
  unfold text. induction (list_byte_of_string s) as [|x r [b IH]];
    cbn [map utf8_encode].
  - eexists. reflexivity.
  - rewrite IH. pose proof (bv_range x) as Hx.
    unfold utf8_encode_char.
    destruct (Z.ltb_spec (bv x) 0); [lia|].
    destruct (Z.ltb_spec (bv x) 0x80); [eexists; reflexivity|].
    destruct (Z.ltb_spec (bv x) 0x800); [eexists; reflexivity|lia].
Qed.

Lemma utf8_decode_raises (b : bytes) (e : exn) :
  utf8_decode b = Raise e -> e = UnicodeDecodeError.
Proof.
  remember (length b) as n eqn:Hn. revert b Hn.
  induction n as [n IH] using (well_founded_induction Nat.lt_wf_0).
  intros b Hn. destruct b as [|b0 r0]; cbn [utf8_decode]; [discriminate|].
  assert (Hrec : forall c r, (length r < n)%nat ->
            cons_ok c (utf8_decode r) = Raise e -> e = UnicodeDecodeError).
  { intros c r Hlt. unfold cons_ok.
    destruct (utf8_decode r) as [s|e'] eqn:Hr; cbn; [discriminate|].
    intros [= ->]. eapply IH; [exact Hlt|reflexivity|exact Hr]. }
  cbn [length] in Hn.
  repeat match goal with
  | |- context [if ?c then _ else _] => destruct c
  | |- context [match ?l with [] => _ | _ :: _ => _ end] => destruct l
  | |- Raise _ = Raise _ -> _ => intros [= <-]; reflexivity
  | |- cons_ok _ _ = Raise _ -> _ => apply Hrec; subst n; cbn [length]; lia
  end.
Qed.

(** The encoding of a character other than [;] has no byte [;]. *)
Lemma utf8_encode_char_no_semicolon (c : Z) (bs : bytes) :
  c <> 59 -> utf8_encode_char c = Ok bs ->
  Forall (fun b => Byte.eqb b ";"%byte = false) bs.
Proof.
  intros Hc. unfold utf8_encode_char.
  assert (Hne : forall z, 0 <= z < 256 -> z <> 59 ->
                  Byte.eqb (byte_of_Z z) ";"%byte = false).
  { intros z Hz Hn. destruct (Byte.eqb (byte_of_Z z) ";"%byte) eqn:He;
      [|reflexivity].
    apply Byte.byte_dec_bl in He. exfalso. apply Hn.
    rewrite <- (bv_byte_of_Z z Hz), He. reflexivity. }
  destruct (Z.ltb_spec c 0); [discriminate|].
  destruct (Z.ltb_spec c 0x80).
  { intros [= <-]. repeat constructor. apply Hne; lia. }
  destruct (Z.ltb_spec c 0x800).
  { intros [= <-]. repeat constructor; apply Hne; zrange. }
  destruct ((0xD800 <=? c) && (c <=? 0xDFFF)); [discriminate|].
  destruct (Z.ltb_spec c 0x10000).
  { intros [= <-]. repeat constructor; apply Hne; zrange. }
  destruct (Z.ltb_spec c 0x110000); [|discriminate].
  intros [= <-]. repeat constructor; apply Hne; zrange.
Qed.

Lemma utf8_encode_no_semicolon (s : str) (bs : bytes) :
  59 ∉ s -> utf8_encode s = Ok bs ->
  Forall (fun b => Byte.eqb b ";"%byte = false) bs.
Proof.
  revert bs. induction s as [|c r IH]; intros bs Hn; cbn [utf8_encode].
  - intros [= <-]. constructor.
  - destruct (utf8_encode_char c) as [h|e] eqn:Hc; cbn [bind]; [|discriminate].
    destruct (utf8_encode r) as [tl|e] eqn:Hr; cbn [bind]; [|discriminate].
    intros [= <-]. apply Forall_app. split.
    + eapply utf8_encode_char_no_semicolon; [|exact Hc].
      intros ->. apply Hn, elem_of_cons. auto.
    + apply IH; [|reflexivity]. intros Hin. apply Hn, elem_of_cons. auto.
Qed.

(* --------------------------------------------------------------------- *)
(** ** Splitting, stripping, slicing and the dict                       *)
(* --------------------------------------------------------------------- *)

Lemma bytes_split_field (h t : bytes) :
  Forall (fun b => Byte.eqb b ";"%byte = false) h ->
  bytes_split ";"%byte (h ++ ";"%byte :: t) = h :: bytes_split ";"%byte t.
Proof.
  induction 1 as [|x r Hx Hr IH]; cbn [app bytes_split].
  - reflexivity.
  - rewrite Hx, IH. reflexivity.
Qed.

Lemma str_split1_has (s : str) :
  61 ∈ s -> exists a b, str_split1 61 s = [a; b] /\ s = a ++ 61 :: b /\ 61 ∉ a.
Proof.
  induction s as [|c r IH]; intros Hin; [inversion Hin|].
  cbn [str_split1]. destruct (Z.eqb_spec c 61) as [->|Hne].
  - exists [], r. repeat split. apply not_elem_of_nil.
  - apply elem_of_cons in Hin as [Heq|Hin]; [congruence|].
    destruct (IH Hin) as (a & b & -> & -> & Ha).
    exists (c :: a), b. repeat split.
    intros Hc. apply elem_of_cons in Hc as [?|?]; [congruence|contradiction].
Qed.

Lemma str_split1_hasnt (s : str) : 61 ∉ s -> str_split1 61 s = [s].
Proof.
  induction s as [|c r IH]; intros Hnin; [reflexivity|].
  cbn [str_split1]. destruct (Z.eqb_spec c 61) as [->|Hne].
  - exfalso. apply Hnin, elem_of_cons. auto.
  - rewrite IH; [reflexivity|]. intros Hin. apply Hnin, elem_of_cons. auto.
Qed.

Lemma str_split1_app (k rest : str) :
  61 ∉ k -> str_split1 61 (k ++ 61 :: rest) = [k; rest].
Proof.
  induction k as [|c r IH]; intros Hn; cbn [app str_split1].
  - reflexivity.
  - destruct (Z.eqb_spec c 61) as [->|Hne].
    + exfalso. apply Hn, elem_of_cons. auto.
    + rewrite IH; [reflexivity|]. intros Hin. apply Hn, elem_of_cons. auto.
Qed.

Lemma lstrip_nonspace (c : Z) (s : str) :
  isspace c = false -> lstrip (c :: s) = c :: s.
Proof. intros Hc. cbn [lstrip]. rewrite Hc. reflexivity. Qed.

Lemma strip_quoted (v : str) : strip (39 :: v ++ [39]) = 39 :: v ++ [39].
Proof.
  unfold strip, rstrip. rewrite lstrip_nonspace by reflexivity.
  replace (rev (39 :: v ++ [39])) with (39 :: rev v ++ [39]).
  - rewrite lstrip_nonspace by reflexivity.
    cbn [rev]. rewrite rev_app_distr, rev_involutive. reflexivity.
  - cbn [rev]. rewrite rev_app_distr. reflexivity.
Qed.

Lemma slice_quoted (v : str) : slice 1 (-1) (39 :: v ++ [39]) = v.
Proof.
  unfold slice, slice_bound. cbn [length]. rewrite length_app. cbn [length].
  cbn [Z.ltb Z.compare].
  replace (Z.to_nat (Z.max 0 (Z.min (Z.of_nat (S (length v + 1))) 1)))
    with 1%nat by lia.
  replace (Z.to_nat _) with (length v) by lia.
  change (firstn (length v) (v ++ [39]) = v).
  rewrite firstn_app, firstn_all, Nat.sub_diag. apply app_nil_r.
Qed.


Lemma str_eqb_eq (a b : str) : str_eqb a b = true <-> a = b.
Proof.
  revert b. induction a as [|x a IH]; intros [|y b]; cbn [str_eqb];
    try (split; [discriminate|discriminate]); [tauto|].
  rewrite andb_true_iff, Z.eqb_eq, IH. split.
  - intros [-> ->]. reflexivity.
  - intros [= -> ->]. auto.
Qed.

Lemma dict_set_fresh (d : dict) (k v : str) :
  k ∉ map fst d -> dict_set d k v = d ++ [(k, v)].
Proof.
  induction d as [|[k' v'] r IH]; intros Hn; cbn [dict_set app].
  - reflexivity.
  - destruct (str_eqb k' k) eqn:He.
    + apply str_eqb_eq in He as ->. exfalso. apply Hn. cbn. apply elem_of_cons.
      auto.
    + rewrite IH; [reflexivity|]. intros Hin. apply Hn. cbn.
      apply elem_of_cons. auto.
Qed.

(* --------------------------------------------------------------------- *)
(** ** The codec [parse_icy]                                            *)
(* --------------------------------------------------------------------- *)

Lemma parse_icy_field_encoded (dta : dict) (k v : str) (fb : bytes) :
  61 ∉ k ->
  utf8_encode (k ++ 61 :: 39 :: v ++ [39]) = Ok fb ->
  parse_icy_field dta fb = Ok (dict_set dta k v).
Proof.
  intros Hk Henc.
  assert (Hdec : utf8_decode fb = Ok (k ++ 61 :: 39 :: v ++ [39])).
  { rewrite <- (app_nil_r fb).
    rewrite (utf8_decode_encode_app _ fb [] [] Henc eq_refl).
    rewrite app_nil_r. reflexivity. }
  unfold parse_icy_field. destruct fb as [|x r].
  - cbn in Hdec. injection Hdec as Hdec. destruct k; discriminate Hdec.
  - rewrite Hdec. cbn [bind]. rewrite (str_split1_app k _ Hk). cbn [unpack2 bind].
    rewrite strip_quoted, slice_quoted. reflexivity.
Qed.

Lemma icy_pair_text_eq (k v rest : str) :
  icy_pair_text (k, v) ++ rest = (k ++ 61 :: 39 :: v ++ [39]) ++ 59 :: rest.
Proof.
  unfold icy_pair_text. cbn [fst snd].
  change (text "='") with [61; 39]. change (text "';") with [39; 59].
  repeat (rewrite <- ?app_assoc; cbn [app]). reflexivity.
Qed.

Lemma parse_icy_loop_encoded (m : dict) :
  forall (dta : dict) (bs : bytes),
  NoDup (map fst dta ++ map fst m) ->
  (forall k v, (k, v) ∈ m -> (59 ∉ k) /\ (61 ∉ k) /\ (59 ∉ v)) ->
  icy_encode m = Ok bs ->
  parse_icy_loop dta (bytes_split ";"%byte bs) = Ok (dta ++ m).
Proof.
  unfold icy_encode.
  induction m as [|[k v] r IH]; intros dta bs Hnd Hwf; cbn [map concat].
  - intros [= <-]. cbn. rewrite app_nil_r. reflexivity.
  - rewrite icy_pair_text_eq. intros Henc.
    destruct (utf8_encode_app_inv _ _ _ Henc) as (fb & tb & Hfb & Htb & ->).
    cbn [utf8_encode] in Htb. change (utf8_encode_char 59) with (Ok [";"%byte]) in Htb.
    cbn [bind] in Htb.
    destruct (utf8_encode (concat (map icy_pair_text r))) as [rb|e] eqn:Hrb;
      cbn [bind] in Htb; [|discriminate].
    injection Htb as <-. cbn [app].
    destruct (Hwf k v) as (Hk59 & Hk61 & Hv59); [apply elem_of_cons; auto|].
    rewrite bytes_split_field.
    2:{ eapply utf8_encode_no_semicolon; [|exact Hfb].
        intros Hin. apply elem_of_app in Hin as [Hin|Hin]; [contradiction|].
        apply elem_of_cons in Hin as [Hin|Hin]; [discriminate|].
        apply elem_of_cons in Hin as [Hin|Hin]; [discriminate|].
        apply elem_of_app in Hin as [Hin|Hin]; [contradiction|].
        apply list_elem_of_singleton in Hin. discriminate. }
    cbn [parse_icy_loop].
    rewrite (parse_icy_field_encoded dta k v fb Hk61 Hfb). cbn [bind].
    assert (Hfresh : k ∉ map fst dta).
    { intros Hin. cbn [map fst] in Hnd. apply NoDup_app in Hnd as (_ & Hd & _).
      apply (Hd k Hin). apply elem_of_cons. auto. }
    rewrite (dict_set_fresh dta k v Hfresh).
    rewrite (IH (dta ++ [(k, v)]) rb).
    + rewrite <- app_assoc. reflexivity.
    + rewrite map_app, <- app_assoc. exact Hnd.
    + intros k' v' Hin. apply Hwf, elem_of_cons. auto.
    + reflexivity.
Qed.

Lemma parse_icy_field_raises (dta : dict) (var : bytes) (e : exn) :
  parse_icy_field dta var = Raise e
  <-> var <> []
      /\ ((utf8_decode var = Raise e /\ e = UnicodeDecodeError)
          \/ (exists s, utf8_decode var = Ok s /\ (61 ∉ s) /\ e = ValueError)).
Proof.
  destruct var as [|x r]; cbn [parse_icy_field].
  - split; [discriminate|]. intros [Hne _]. contradiction.
  - destruct (utf8_decode (x :: r)) as [s|e'] eqn:Hd; cbn [bind].
    + destruct (decide (61 ∈ s)) as [Hin|Hnin].
      * destruct (str_split1_has s Hin) as (a & b & -> & _ & _). cbn.
        split; [discriminate|].
        intros [_ [[? _]|(s' & Hs' & Hn & _)]]; [discriminate|].
        injection Hs' as <-. contradiction.
      * rewrite (str_split1_hasnt s Hnin). cbn. split.
        -- intros [= <-]. split; [discriminate|]. right. eauto.
        -- intros [_ [[? _]|(_ & _ & _ & ->)]]; [discriminate|reflexivity].
    + split.
      * intros [= ->]. split; [discriminate|]. left.
        split; [reflexivity|]. eapply utf8_decode_raises, Hd.
      * intros [_ [[[= ->] _]|(s' & Hs' & _)]]; [reflexivity|discriminate].
Qed.

Lemma parse_icy_loop_malformed (vars : list bytes) (dta : dict) :
  (exists field, field ∈ vars /\ field <> []
     /\ ((exists e, utf8_decode field = Raise e)
         \/ (exists s, utf8_decode field = Ok s /\ 61 ∉ s))) ->
  exists e, parse_icy_loop dta vars = Raise e
            /\ (e = UnicodeDecodeError \/ e = ValueError).
Proof.
  revert dta. induction vars as [|var r IH]; intros dta (f & Hin & Hne & Hbad).
  - inversion Hin.
  - cbn [parse_icy_loop].
    destruct (parse_icy_field dta var) as [dta'|e] eqn:Hf; cbn [bind].
    + apply IH. exists f. repeat split; auto.
      apply elem_of_cons in Hin as [->|Hin]; [|exact Hin]. exfalso.
      destruct Hbad as [[e He]|(s & Hs & Hn)].
      * pose proof (utf8_decode_raises _ _ He) as ->.
        assert (parse_icy_field dta var = Raise UnicodeDecodeError) as Hr
          by (apply parse_icy_field_raises; auto).
        congruence.
      * assert (parse_icy_field dta var = Raise ValueError) as Hr
          by (apply parse_icy_field_raises; split; [auto|right; eauto]).
        congruence.
    + exists e. split; [reflexivity|].
      apply parse_icy_field_raises in Hf as [_ [[_ ->]|(_ & _ & _ & ->)]]; auto.
Qed.

Lemma parse_icy_malformed (metadata : bytes) :
  malformed metadata ->
  exists e, parse_icy metadata = Raise e
            /\ (e = UnicodeDecodeError \/ e = ValueError).
Proof. intros Hm. apply parse_icy_loop_malformed, Hm. Qed.


(** C8. The block [StreamTitle='Artist - Song';StreamUrl='';] decodes to
    the two pairs [StreamTitle -> Artist - Song] and [StreamUrl -> ""], and
    nothing comes from the empty field after the last [;]. *)
Theorem C8_parse_icy_example :
  bytes_split ";"%byte (blit "StreamTitle='Artist - Song';StreamUrl='';")
  = [blit "StreamTitle='Artist - Song'"; blit "StreamUrl=''"; []]
  /\ parse_icy (blit "StreamTitle='Artist - Song';StreamUrl='';")
     = Ok [(text "StreamTitle", text "Artist - Song");
           (text "StreamUrl", text "")].
Proof. split; vm_compute; reflexivity. Qed.



(** C7. Round trip of the codec. For a mapping with distinct keys, given by
    its pairs in order, whose keys are ASCII text without [;] and [=] and
    whose values have no [;]: when the text made of [key='value';] for each
    pair is encoded as UTF-8, [parse_icy] of the bytes returns the mapping,
    with its pairs in the same order. *)
Theorem C7_icy_round_trip (m : dict) (bs : bytes) :
  NoDup (map fst m) ->
  (forall k v, (k, v) ∈ m ->
     Forall (fun c => 0 <= c < 128) k /\ (59 ∉ k) /\ (61 ∉ k) /\ (59 ∉ v)) ->
  icy_encode m = Ok bs ->
  parse_icy bs = Ok m.
Proof.
  intros Hnd Hwf Henc. unfold parse_icy.
  apply (parse_icy_loop_encoded m [] bs); [exact Hnd| |exact Henc].
  intros k v Hin. destruct (Hwf k v Hin) as (_ & ? & ? & ?). auto.
Qed.

Lemma C7_icy_round_trip_witness :
  icy_encode dict_example
  = Ok (blit "StreamTitle='Artist - Song';StreamUrl='';")
  /\ parse_icy (blit "StreamTitle='Artist - Song';StreamUrl='';")
     = Ok dict_example.
Proof.
  split; [reflexivity|].
  apply (C7_icy_round_trip dict_example).
  - apply NoDup_cons. split.
    + intros Hin. apply list_elem_of_singleton in Hin. discriminate Hin.
    + apply NoDup_cons. split; [apply not_elem_of_nil|apply NoDup_nil_2].
  - intros k v Hin.
    apply elem_of_cons in Hin as [Hin|Hin].
    { injection Hin as -> ->. vm_compute.
      split; [repeat constructor; discriminate|].
      repeat split; intros Hin;
        repeat (apply elem_of_cons in Hin as [Hin|Hin]; [discriminate Hin|]);
        inversion Hin. }
    apply list_elem_of_singleton in Hin.
    injection Hin as -> ->. vm_compute.
    split; [repeat constructor; discriminate|].
    repeat split; intros Hin;
      repeat (apply elem_of_cons in Hin as [Hin|Hin]; [discriminate Hin|]);
      inversion Hin.
  - reflexivity.
Defined.

(* --------------------------------------------------------------------- *)
(** ** The worker, for any response                                     *)
(* --------------------------------------------------------------------- *)

Create HintDb files discriminated.

Section Worker.

Context {C : Type} `{HTTPResponse C}.

(** *** The worker once it has ended *)

Lemma step_terminated env args (st : Phase * World C) :
  terminated (fst st) = true -> record_worker_step env args st = st.
Proof.
  destruct st as [[s| |e] w]; simpl; intros Ht; try reflexivity.
  discriminate Ht.
Qed.

Lemma steps_terminated env args n
  (st : Phase * World C) :
  terminated (fst st) = true -> steps env args n st = st.
Proof.
  induction n as [|n IH]; intros Ht; simpl; [reflexivity|].
  rewrite step_terminated by exact Ht. apply IH, Ht.
Qed.

Lemma Event_set_idempotent (w : World C) :
  Event_set (Event_set w) = Event_set w.
Proof. reflexivity. Qed.

Lemma Event_set_already_set (w : World C) :
  stoprec w = true -> Event_set w = w.
Proof. destruct w as [f o c s]; simpl; intros ->; reflexivity. Qed.

(** *** The content type *)

Lemma add_extension_m3u (filename : string) (w : World C) :
  add_extension (Some "audio/x-mpegurl"%string) filename w
  = (Raise SystemExit,
     with_output w m3u_message).
Proof. reflexivity. Qed.

Lemma add_extension_table (t f : string) (w : World C) :
  add_extension (Some t) f w =
  if bool_decide (t = "audio/mpeg"%string) then (Ok (f +:+ ".mp3"), w)
  else if bool_decide (t ∈ ["application/aacp"; "audio/aacp"; "audio/aac"]%string)
  then (Ok (f +:+ ".aac"), w)
  else if bool_decide (t ∈ ["application/ogg"; "audio/ogg"]%string)
  then (Ok (f +:+ ".ogg"), w)
  else if bool_decide (t = "audio/x-mpegurl"%string)
  then (Raise SystemExit, with_output w m3u_message)
  else (Ok (f +:+ ".mp3"), with_output w (unknown_type_warning t)).
Proof.
  unfold add_extension.
  repeat match goal with
  | |- context [bool_decide (Some t = Some ?u)] =>
      replace (bool_decide (Some t = Some u)) with (bool_decide (t = u))
        by (apply bool_decide_ext; split; congruence)
  end.
  repeat match goal with
  | |- context [bool_decide (t ∈ ?l)] =>
      rewrite (bool_decide_ext (t ∈ l) (In t l)) by apply list_elem_of_In
  end.
  cbn [In].
  repeat match goal with
  | |- context [bool_decide (t = ?u)] =>
      destruct (bool_decide_reflect (t = u)) as [->|?]
  end; try reflexivity;
  repeat match goal with
  | |- context [bool_decide ?P] =>
      first [ rewrite (bool_decide_eq_true_2 P) by (intuition congruence)
            | rewrite (bool_decide_eq_false_2 P) by (intuition congruence) ]
  end; reflexivity.
Qed.

Lemma add_extension_spec (ct : option string) (f : string)
  (w : World C) :
  match add_extension ct f w with
  | (Ok fn, w') =>
      (fn = f +:+ ".mp3" \/ fn = f +:+ ".aac" \/ fn = f +:+ ".ogg")
      /\ fs w' = fs w /\ conn w' = conn w /\ stoprec w' = stoprec w
      /\ (exists t, ct = Some t /\ t <> "audio/x-mpegurl"%string)
  | (Raise e, w') =>
      fs w' = fs w /\ conn w' = conn w /\ stoprec w' = stoprec w
      /\ ((ct = None /\ e = TypeError)
          \/ (ct = Some "audio/x-mpegurl"%string /\ e = SystemExit))
  end.
Proof.
  unfold add_extension.
  repeat match goal with
  | |- context [bool_decide (ct = Some ?t)] =>
      destruct (bool_decide_reflect (ct = Some t)) as [->|?]
  end; cbn [orb];
  try (cbn; (split; [tauto|]); repeat (split; [reflexivity|]);
       eexists; split; [reflexivity|discriminate]).
  - cbn. tauto.
  - destruct ct as [t|]; cbn.
    + split; [tauto|]. repeat (split; [reflexivity|]).
      exists t. split; [reflexivity|congruence].
    + tauto.
Qed.

(** *** Which files there are *)

Lemma keeps_files_ret {A} (a : A) : keeps_files (@ret C A a).
Proof. intros w. reflexivity. Qed.

Lemma keeps_files_raise {A} (e : exn) : keeps_files (@raise C A e).
Proof. intros w. reflexivity. Qed.

Lemma keeps_files_lift {A} (r : result A) : keeps_files (@lift C A r).
Proof. intros w. reflexivity. Qed.

Lemma keeps_files_print (l : str) : keeps_files (@print C l).
Proof. intros w. reflexivity. Qed.

Lemma keeps_files_verboseprint args (l : str) :
  keeps_files (@verboseprint C args l).
Proof.
  unfold verboseprint. destruct (verbose args);
    [apply keeps_files_print | apply keeps_files_ret].
Qed.

Lemma keeps_files_read (n : Z) :
  keeps_files (read (C:=C) n).
Proof. intros w. unfold read. destruct (conn_read n (conn w)). reflexivity. Qed.

Lemma keeps_files_bind {A B} (m : M C A) (k : A -> M C B) :
  keeps_files m -> (forall a, keeps_files (k a)) -> keeps_files (mbind m k).
Proof.
  intros Hm Hk w. unfold mbind. specialize (Hm w).
  destruct (m w) as [[a|e] w1]; cbn [snd] in *.
  - rewrite Hk. exact Hm.
  - exact Hm.
Qed.

Lemma keeps_files_write (k : string) (b : bytes) :
  keeps_files (@on_fs C (file_write k b)).
Proof. intros w. cbn. unfold file_write. apply dom_alter_L. Qed.

Lemma keeps_files_flush (k : string) :
  keeps_files (@on_fs C (file_flush k)).
Proof. intros w. cbn. unfold file_flush. apply dom_alter_L. Qed.

Lemma keeps_files_chmod (k : string) :
  keeps_files (@on_fs C (file_chmod_public k)).
Proof. intros w. cbn. unfold file_chmod_public. apply dom_alter_L. Qed.

#[local] Hint Resolve keeps_files_ret keeps_files_raise keeps_files_lift
  keeps_files_print keeps_files_verboseprint keeps_files_read
  keeps_files_write keeps_files_flush keeps_files_chmod : files.

(** Through the binds and the branches of a computation, down to the
    operations above. *)
Ltac keeps_files_steps :=
  repeat first
    [ solve [auto with files]
    | apply keeps_files_bind; [|intros ?]
    | match goal with
      | |- keeps_files (if ?c then _ else _) => destruct c
      | |- keeps_files (match ?l with [] => _ | _ :: _ => _ end) => destruct l
      | |- keeps_files (match ?o with Some _ => _ | None => _ end) =>
          destruct o
      | |- keeps_files (fun w => (Ok _, w)) => intros ?; reflexivity
      end ].

Lemma dom_file_close (k : string) (m : gmap string File) :
  dom (file_close k m) = dom m.
Proof. unfold file_close. apply dom_alter_L. Qed.

Lemma dom_file_flush (k : string) (m : gmap string File) :
  dom (file_flush k m) = dom m.
Proof. unfold file_flush. apply dom_alter_L. Qed.

Lemma dom_file_open (k : string) (m : gmap string File) :
  dom (file_open k m) = {[k]} ∪ dom m.
Proof. unfold file_open. apply dom_insert_L. Qed.

Lemma dom_close_meta args s (m : gmap string File) :
  dom (close_meta args s m) = dom m.
Proof.
  unfold close_meta. destruct (metaTarget s); [|reflexivity].
  destruct (icy args); [|reflexivity].
  rewrite dom_file_close. apply dom_file_flush.
Qed.

Lemma keeps_files_write_header_lines env args m keys :
  keeps_files (write_header_lines (C:=C) env args m keys).
Proof.
  induction keys as [|k r IH]; cbn [write_header_lines]; keeps_files_steps.
Qed.

Lemma keeps_files_write_meta_lines env args s items :
  keeps_files (write_meta_lines (C:=C) env args s items).
Proof.
  induction items as [|[k v] r IH]; cbn [write_meta_lines]; keeps_files_steps.
Qed.

#[local] Hint Resolve keeps_files_write_header_lines
  keeps_files_write_meta_lines : files.

Lemma keeps_files_loop_body env args s :
  keeps_files (loop_body (C:=C) env args s).
Proof. unfold loop_body. keeps_files_steps. Qed.

Lemma step_keeps_files env args
  (st : Phase * World C) :
  dom (fs (snd (record_worker_step env args st))) = dom (fs (snd st)).
Proof.
  destruct st as [[s| |e] w]; cbn [record_worker_step snd]; try reflexivity.
  destruct (negb (stoprec w) && negb (conn_closed (conn w))).
  - pose proof (keeps_files_loop_body env args s w) as Hb.
    destruct (loop_body env args s w) as [[u|e] w1]; cbn [snd] in *.
    + exact Hb.
    + cbn. rewrite dom_file_close. exact Hb.
  - cbn. rewrite dom_close_meta, dom_file_close. reflexivity.
Qed.

Lemma steps_keep_files env args n
  (st : Phase * World C) :
  dom (fs (snd (steps env args n st))) = dom (fs (snd st)).
Proof.
  revert st. induction n as [|n IH]; intros st; cbn [steps]; [reflexivity|].
  rewrite IH. apply step_keeps_files.
Qed.

Lemma base_meta_ne (base ext : string) :
  ext ≠ ".meta"%string -> base +:+ ext ≠ base +:+ ".meta".
Proof.
  intros Hne Heq. apply Hne. induction base as [|a b IH]; cbn in Heq.
  - exact Heq.
  - injection Heq as Heq. apply IH, Heq.
Qed.

(** *** The headers and the start of the worker *)

Lemma icy_metaint_in_keys (c : C) :
  "icy-metaint"%string ∈ icy_header_keys c
  <-> "icy-metaint"%string ∈ map fst (getheaders c).
Proof.
  unfold icy_header_keys.
  induction (getheaders c) as [|[k v] r IH]; cbn [List.filter map fst].
  - reflexivity.
  - destruct (startswith (lower k) "icy-") eqn:Hk; cbn [map fst].
    + rewrite !elem_of_cons, IH. reflexivity.
    + rewrite elem_of_cons, IH. split; [auto|].
      intros [<-|Hin]; [|exact Hin]. vm_compute in Hk. discriminate Hk.
Qed.

Lemma getheader_of_key (c : C) (k : string) :
  k ∈ map fst (getheaders c) -> exists v, getheader c k = Some v.
Proof.
  unfold getheader. intros Hin.
  induction (getheaders c) as [|[k' v'] r IH]; cbn [map fst] in Hin.
  - inversion Hin.
  - cbn [List.filter fst]. apply elem_of_cons in Hin as [->|Hin].
    + rewrite String.eqb_refl. eauto.
    + destruct (String.eqb (lower k') (lower k)); [eauto|]. apply IH, Hin.
Qed.

Lemma getheader_some_name (c : C) (k v : string) :
  getheader c k = Some v ->
  exists k', k' ∈ map fst (getheaders c) /\ lower k' = lower k.
Proof.
  unfold getheader.
  induction (getheaders c) as [|[k' v'] r IH]; cbn [List.filter map fst].
  - discriminate.
  - destruct (String.eqb (lower k') (lower k)) eqn:He.
    + intros _. exists k'. split; [apply elem_of_cons; auto|].
      apply String.eqb_eq, He.
    + intros Hr. destruct (IH Hr) as (k'' & Hin & Hl).
      exists k''. split; [apply elem_of_cons; auto|exact Hl].
Qed.

Lemma write_header_lines_ok env args m keys
  (w : World C) :
  exists w', write_header_lines env args m keys w = (Ok tt, w')
             /\ conn w' = conn w /\ stoprec w' = stoprec w
             /\ dom (fs w') = dom (fs w).
Proof.
  revert w. induction keys as [|k r IH]; intros w; cbn [write_header_lines].
  - exists w. repeat split.
  - unfold mbind at 1. unfold mbind at 1.
    destruct (utf8_encode_text
                ((k +:+ ": " +:+ format_value (getheader (conn w) k))
                 +:+ os_linesep env)) as [b Hb].
    set (w1 := snd (verboseprint args
                  (text (k +:+ ": " +:+ format_value (getheader (conn w) k)))
                  w)).
    assert (Hv : verboseprint args
                  (text (k +:+ ": " +:+ format_value (getheader (conn w) k)))
                  w = (Ok tt, w1)
                 /\ conn w1 = conn w /\ stoprec w1 = stoprec w
                 /\ fs w1 = fs w).
    { subst w1. unfold verboseprint. destruct (verbose args); cbn; auto. }
    destruct Hv as (-> & Hc & Hs & Hf).
    unfold mbind at 1, lift. rewrite Hb.
    unfold mbind at 1, on_fs.
    destruct (IH (set_fs (file_write m b) w1)) as (w' & -> & Hc' & Hs' & Hd').
    exists w'. split; [reflexivity|].
    cbn in Hc', Hs', Hd'. rewrite Hc', Hs', Hd'.
    unfold file_write. rewrite dom_alter_L, Hf. auto.
Qed.

Lemma start_spec env target_dir args (w : World C) :
  let base := base_filename env target_dir args in
  let meta := base +:+ ".meta" in
  let ct := getheader (conn w) "Content-Type" in
  match record_worker_start env target_dir args w with
  | (Ok s, w') =>
      (exists t, ct = Some t /\ t <> "audio/x-mpegurl"%string)
      /\ read_icyMetaint env args (conn w) = Ok (icyMetaint s)
      /\ readLength s = read_length (icyMetaint s)
      /\ metaTarget s
         = (if metadata_mode args (icyMetaint s) then Some meta else None)
      /\ (filename s = base +:+ ".mp3" \/ filename s = base +:+ ".aac"
          \/ filename s = base +:+ ".ogg")
      /\ passage s = 0%nat
      /\ conn w' = conn w /\ stoprec w' = stoprec w
      /\ dom (fs w')
         = {[filename s]}
           ∪ ((if metadata_mode args (icyMetaint s) then {[meta]} else ∅)
              ∪ dom (fs w))
  | (Raise e, w') =>
      fs w' = fs w /\ conn w' = conn w /\ stoprec w' = stoprec w
      /\ ((ct = None /\ e = TypeError)
          \/ (ct = Some "audio/x-mpegurl"%string /\ e = SystemExit)
          \/ ((exists t, ct = Some t /\ t <> "audio/x-mpegurl"%string)
              /\ read_icyMetaint env args (conn w) = Raise e))
  end.
Proof.
  intros base meta ct. unfold record_worker_start.
  fold base. fold meta. unfold mbind at 1. fold ct.
  unfold mbind at 1.
  pose proof (add_extension_spec ct base w) as Hext.
  destruct (add_extension ct base w) as [[fn|e] w1].
  2:{ destruct Hext as (Hf & Hc & Hs & Hcase). repeat split; auto.
      destruct Hcase as [?|?]; auto. }
  destruct Hext as (Hfn & Hf & Hc & Hs & Hct).
  unfold mbind at 1. unfold mbind at 1. rewrite Hc.
  destruct (read_icyMetaint env args (conn w)) as [m|e] eqn:Hm.
  2:{ repeat split; auto. }
  fold (metadata_mode args m).
  assert (Htail : forall mt (w2 : World C),
    exists w', (on_fs (file_open fn);;;
        (if public args
         then
          verboseprint args
            (text "Apply public write permissions (Linux only)");;;
          on_fs (file_chmod_public fn)
         else ret ());;;
        verboseprint args (text ("Recording " +:+ station args +:+ "..."));;;
        ret {| filename := fn; metaTarget := mt; icyMetaint := m;
               readLength := read_length m; passage := 0 |}) w2
      = (Ok {| filename := fn; metaTarget := mt; icyMetaint := m;
               readLength := read_length m; passage := 0 |}, w')
      /\ conn w' = conn w2 /\ stoprec w' = stoprec w2
      /\ dom (fs w') = {[fn]} ∪ dom (fs w2)).
  { intros mt w2. unfold mbind, on_fs, verboseprint, print, ret.
    destruct (public args), (verbose args); cbn;
      eexists; (split; [reflexivity|]); cbn;
      unfold file_chmod_public; rewrite ?dom_alter_L, dom_file_open; auto. }
  destruct (metadata_mode args m) eqn:Hmode.
  - unfold mbind at 1. unfold mbind at 1. unfold mbind at 1. unfold on_fs at 1.
    destruct (write_header_lines_ok env args meta (icy_header_keys (conn w))
                (set_fs (file_open meta) w1)) as (w2 & -> & Hc2 & Hs2 & Hd2).
    unfold ret at 1.
    destruct (Htail (Some meta) w2) as (w' & -> & Hc' & Hs' & Hd').
    cbn [icyMetaint readLength metaTarget filename passage]. rewrite Hmode.
    cbn in Hc2, Hs2, Hd2. rewrite dom_file_open in Hd2.
    repeat split; auto; congruence.
  - unfold mbind at 1. unfold ret at 1.
    destruct (Htail None w1) as (w' & -> & Hc' & Hs' & Hd').
    cbn [icyMetaint readLength metaTarget filename passage]. rewrite Hmode.
    repeat split; auto; try congruence.
    rewrite Hd', Hf, (left_id_L ∅ (∪)). reflexivity.
Qed.

Lemma read_icyMetaint_named env args (c : C) :
  icy args = true ->
  "icy-metaint"%string ∈ map fst (getheaders c) ->
  exists v, getheader c "icy-metaint" = Some v
            /\ read_icyMetaint env args c = (let* n := py_int (int_max_str_digits env) v in Ok (Some n)).
Proof.
  intros Hi Hin. destruct (getheader_of_key c _ Hin) as [v Hv].
  exists v. split; [exact Hv|].
  unfold read_icyMetaint. rewrite Hi, Hv.
  rewrite bool_decide_eq_true_2 by (apply icy_metaint_in_keys, Hin).
  reflexivity.
Qed.

Lemma read_icyMetaint_absent env args (c : C) :
  icy args = true ->
  getheader c "icy-metaint" = None ->
  read_icyMetaint env args c = Ok None.
Proof.
  intros Hi Hn. unfold read_icyMetaint. rewrite Hi.
  rewrite bool_decide_eq_false_2; [reflexivity|].
  intros Hin. apply icy_metaint_in_keys in Hin.
  destruct (getheader_of_key c _ Hin) as [v Hv]. congruence.
Qed.

Lemma read_icyMetaint_off env args (c : C) :
  icy args = false -> read_icyMetaint env args c = Ok (Some 0).
Proof. intros Hi. unfold read_icyMetaint. rewrite Hi. reflexivity. Qed.

Lemma py_int_raises (m : Z) (v : string) (e : exn) :
  py_int m v = Raise e -> e = ValueError.
Proof.
  unfold py_int.
  repeat match goal with
  | |- context [match ?x with _ => _ end] => destruct x
  end; congruence.
Qed.

Lemma mode_iff env args (c : C) :
  metaint_name_lower c ->
  (exists m, read_icyMetaint env args c = Ok m /\ metadata_mode args m = true)
  <-> (icy args = true
       /\ exists v z, getheader c "icy-metaint" = Some v
                      /\ py_int (int_max_str_digits env) v = Ok z /\ z <> 0).
Proof.
  intros Hlow. unfold metadata_mode. destruct (icy args) eqn:Hi.
  2:{ split.
      - intros (m & _ & Hm). discriminate Hm.
      - intros [Hf _]. discriminate Hf. }
  destruct (decide ("icy-metaint"%string ∈ map fst (getheaders c)))
    as [Hin|Hnin].
  - destruct (read_icyMetaint_named env args c Hi Hin) as (v & Hv & ->).
    split.
    + intros (m & Hm & Ht). split; [reflexivity|]. exists v.
      destruct (py_int (int_max_str_digits env) v) as [z|e]; cbn in Hm; [|discriminate].
      injection Hm as <-. exists z. cbn in Ht.
      repeat split; auto. intros ->. discriminate Ht.
    + intros (_ & v' & z & Hv' & Hz & Hnz).
      assert (v' = v) as -> by congruence. rewrite Hz. cbn.
      exists (Some z). split; [reflexivity|]. cbn.
      destruct (Z.eqb_spec z 0); [contradiction|reflexivity].
  - assert (Hnone : getheader c "icy-metaint" = None).
    { destruct (getheader c "icy-metaint") as [v|] eqn:Hv; [|reflexivity].
      destruct (getheader_some_name c _ _ Hv) as (k & Hk & Hl).
      exfalso. apply Hnin. rewrite <- (Hlow k Hk Hl). exact Hk. }
    rewrite (read_icyMetaint_absent env args c Hi Hnone). split.
    + intros (m & Hm & Ht). injection Hm as <-. discriminate Ht.
    + intros (_ & v & z & Hv & _). congruence.
Qed.

(** *** The files at the end of the worker *)

Lemma file_close_closed (k : string) (m : gmap string File) :
  k ∈ dom m -> f_closed <$> file_close k m !! k = Some true.
Proof.
  intros Hk. apply elem_of_dom in Hk as [f Hf].
  unfold file_close. rewrite lookup_alter_eq, Hf. reflexivity.
Qed.

Lemma file_close_keeps_closed (k k' : string) (m : gmap string File) :
  f_closed <$> m !! k = Some true ->
  f_closed <$> file_close k' m !! k = Some true.
Proof.
  intros Hk. unfold file_close. destruct (decide (k' = k)) as [->|Hne].
  - rewrite lookup_alter_eq. destruct (m !! k); [reflexivity|discriminate].
  - rewrite lookup_alter_ne by exact Hne. exact Hk.
Qed.

Lemma file_flush_keeps_closed (k k' : string) (m : gmap string File) :
  f_closed <$> m !! k = Some true ->
  f_closed <$> file_flush k' m !! k = Some true.
Proof.
  intros Hk. unfold file_flush. destruct (decide (k' = k)) as [->|Hne].
  - rewrite lookup_alter_eq. destruct (m !! k); [exact Hk|discriminate].
  - rewrite lookup_alter_ne by exact Hne. exact Hk.
Qed.

(** The audio file is closed when a step takes the worker out of the loop,
    by the end of the loop or by an exception in its body. *)
Lemma exit_closes_audio env args s (w : World C) :
  filename s ∈ dom (fs w) ->
  terminated (fst (record_worker_step env args (Streaming s, w))) = true ->
  f_closed <$> fs (snd (record_worker_step env args (Streaming s, w)))
               !! filename s = Some true.
Proof.
  intros Hin. cbn [record_worker_step].
  destruct (negb (stoprec w) && negb (conn_closed (conn w))).
  - pose proof (keeps_files_loop_body env args s w) as Hb.
    destruct (loop_body env args s w) as [[u|e] w1]; cbn [fst snd] in *.
    + discriminate.
    + intros _. cbn. apply file_close_closed. rewrite Hb. exact Hin.
  - intros _. cbn. unfold close_meta.
    pose proof (file_close_closed _ _ Hin) as Hc.
    destruct (metaTarget s); [|exact Hc].
    destruct (icy args); [|exact Hc].
    apply file_close_keeps_closed, file_flush_keeps_closed, Hc.
Qed.

(** The sidecar is flushed and closed when the worker leaves the loop by
    its condition. *)
Lemma return_closes_sidecar env args s (w : World C)
  (m : string) :
  metaTarget s = Some m -> icy args = true -> m ∈ dom (fs w) ->
  fst (record_worker_step env args (Streaming s, w)) = Returned ->
  exists f, fs (snd (record_worker_step env args (Streaming s, w))) !! m
            = Some f
            /\ f_closed f = true /\ f_dirty f = false.
Proof.
  intros Hm Hi Hin. cbn [record_worker_step].
  destruct (negb (stoprec w) && negb (conn_closed (conn w))).
  - destruct (loop_body env args s w) as [[u|e] w1]; discriminate.
  - intros _. cbn. unfold close_meta. rewrite Hm, Hi.
    assert (Hd : m ∈ dom (file_flush m (file_close (filename s) (fs w)))).
    { rewrite dom_file_flush, dom_file_close. exact Hin. }
    apply elem_of_dom in Hd as [f Hf].
    unfold file_close at 1. rewrite lookup_alter_eq, Hf. cbn.
    eexists. split; [reflexivity|]. split; reflexivity.
Qed.

End Worker.

(* --------------------------------------------------------------------- *)
(** ** The capture engine                                               *)
(* --------------------------------------------------------------------- *)

(** C6. When the content type of the response is [audio/x-mpegurl], the
    worker prints that playlists are not supported and ends by [sys.exit()]
    before it opens a file: the files are the ones there were before, so
    there is no audio file and no sidecar from this capture. *)
Theorem C6_m3u_aborts_before_any_file {C} `{HTTPResponse C} env target_dir
  args n (w : World C) :
  getheader (conn w) "Content-Type" = Some "audio/x-mpegurl"%string ->
  record_worker env target_dir args n w
  = (Raised SystemExit,
     with_output w m3u_message).
Proof.
  intros Hct. unfold record_worker, record_worker_begin, record_worker_start.
  unfold mbind at 1. rewrite Hct.
  unfold mbind at 1. rewrite add_extension_m3u.
  apply steps_terminated. reflexivity.
Qed.

Lemma C6_m3u_aborts_before_any_file_witness :
  getheader (conn world_m3u) "Content-Type" = Some "audio/x-mpegurl"%string
  /\ record_worker env0 "/tmp" (args0 true) 4 world_m3u
     = (Raised SystemExit,
        with_output world_m3u m3u_message).
Proof.
  split; [reflexivity|].
  apply (C6_m3u_aborts_before_any_file env0 "/tmp" (args0 true) 4 world_m3u).
  reflexivity.
Defined.

(** C3. Without a [Content-Type] header the content type is [None]; the
    last branch then builds its message by concatenation with [None], which
    raises [TypeError]: no extension is returned and nothing is printed. *)
Theorem C3_missing_content_type_raises {C} (filename : string)
  (w : World C) :
  add_extension None filename w = (Raise TypeError, w).
Proof. reflexivity. Qed.

(** C1, as the specification states it, fails in both directions: with
    [icy-metaint: -16], which is no positive integer, the sidecar file is
    created; and with a valid positive [icy-metaint] in a response of type
    [audio/x-mpegurl], the worker ends before it creates the sidecar. *)
Lemma C1_sidecar_for_negative_metaint :
  (py_int (int_max_str_digits env0) "-16" = Ok (-16)
   /\ ~ 0 < -16
   /\ is_Some (fs (snd (record_worker env0 "/tmp" (args0 true) 0
                          (world0 (hdr_mpeg_metaint "-16") (blit "abc"))))
               !! meta0))
  /\ (py_int (int_max_str_digits env0) "8192" = Ok 8192
      /\ 0 < 8192
      /\ fs (snd (record_worker env0 "/tmp" (args0 true) 3
                    (world0 hdr_m3u_metaint (blit "abc"))))
         !! meta0 = None).
Proof.
  split.
  - split; [reflexivity|]. split; [lia|].
    apply elem_of_dom. vm_compute. reflexivity.
  - split; [reflexivity|]. split; [lia|]. reflexivity.
Qed.

(** C1, amended. For a response that has a [Content-Type] header and
    spells the name [icy-metaint] in lower case: after any number of steps
    of the worker the sidecar file is there if and only if ICY metadata was
    asked for, the content type is not [audio/x-mpegurl], and the value of
    [icy-metaint] parses as an integer other than zero (a negative one
    counts). The sidecar is taken not to be there before. *)
Theorem C1_sidecar_presence {C} `{HTTPResponse C} env target_dir args n
  (w : World C) (ct : string) :
  let meta := base_filename env target_dir args +:+ ".meta" in
  fs w !! meta = None ->
  getheader (conn w) "Content-Type" = Some ct ->
  metaint_name_lower (conn w) ->
  is_Some (fs (snd (record_worker env target_dir args n w)) !! meta)
  <-> (icy args = true
       /\ ct <> "audio/x-mpegurl"%string
       /\ exists v z, getheader (conn w) "icy-metaint" = Some v
                      /\ py_int (int_max_str_digits env) v = Ok z /\ z <> 0).
Proof.
  intros meta Hnew Hct Hlow.
  rewrite <- elem_of_dom. unfold record_worker. rewrite steps_keep_files.
  apply not_elem_of_dom in Hnew.
  pose proof (mode_iff env args (conn w) Hlow) as Hmode.
  unfold record_worker_begin.
  pose proof (start_spec env target_dir args w) as Hs. cbv zeta in Hs.
  fold meta in Hs.
  destruct (record_worker_start env target_dir args w) as [[s|e] w'];
    cbn [snd].
  - destruct Hs as ((t & Ht & Hm3u) & Hread & _ & _ & Hfn & _ & _ & _ & Hd).
    assert (t = ct) as -> by congruence.
    assert (Hne : filename s <> meta).
    { destruct Hfn as [-> | [-> | ->]]; apply base_meta_ne; discriminate. }
    rewrite Hd. split.
    + intros Hin. apply elem_of_union in Hin as [Hin|Hin].
      { apply elem_of_singleton in Hin. congruence. }
      apply elem_of_union in Hin as [Hin|Hin]; [|contradiction].
      destruct (metadata_mode args (icyMetaint s)) eqn:Hmd;
        [|apply elem_of_empty in Hin; contradiction].
      destruct (proj1 Hmode) as [Hi Hv]; [eauto|]. auto.
    + intros (Hi & _ & Hv). destruct (proj2 Hmode) as (m & Hm & Hmd); [auto|].
      assert (m = icyMetaint s) as -> by congruence.
      rewrite Hmd. apply elem_of_union_r, elem_of_union_l.
      apply elem_of_singleton. reflexivity.
  - destruct Hs as (Hf & _ & _ & Hcase). rewrite Hf. split; [contradiction|].
    intros (Hi & Hm3u & Hv). exfalso.
    destruct Hcase as [[Hnone _]|[[Hsome _]|[_ Hraise]]]; try congruence.
    destruct (proj2 Hmode) as (m & Hm & _); [auto|]. congruence.
Qed.

Lemma C1_sidecar_presence_witness :
  fs (world0 (hdr_mpeg_metaint "8192") (blit "abc")) !! meta0 = None
  /\ (is_Some (fs (snd (record_worker env0 "/tmp" (args0 true) 2
                         (world0 (hdr_mpeg_metaint "8192") (blit "abc"))))
               !! meta0)
      <-> (icy (args0 true) = true
           /\ "audio/mpeg"%string <> "audio/x-mpegurl"%string
           /\ exists v z,
               getheader (conn (world0 (hdr_mpeg_metaint "8192") (blit "abc")))
                         "icy-metaint" = Some v
               /\ py_int (int_max_str_digits env0) v = Ok z /\ z <> 0)).
Proof.
  split; [reflexivity|].
  apply (C1_sidecar_presence env0 "/tmp" (args0 true) 2
           (world0 (hdr_mpeg_metaint "8192") (blit "abc")) "audio/mpeg").
  - reflexivity.
  - reflexivity.
  - intros k Hk Hl. cbn in Hk.
    apply elem_of_cons in Hk as [->|Hk]; [discriminate Hl|].
    apply elem_of_cons in Hk as [->|Hk]; [reflexivity|].
    inversion Hk.
Defined.

(** C2, as the specification states it, fails: with [icy-metaint: -16],
    a negative value, metadata mode is on and the read size is -16, where
    the claim has metadata mode off and a read size of 1024; and with
    [icy-metaint: abc] the worker raises [ValueError], where the claim has
    a session with metadata mode off. *)
Lemma C2_negative_metaint_enters_metadata_mode :
  (exists s w',
     record_worker_start env0 "/tmp" (args0 true)
       (world0 (hdr_mpeg_metaint "-16") (blit "abc")) = (Ok s, w')
     /\ metadata_mode (args0 true) (icyMetaint s) = true
     /\ readLength s = -16
     /\ readLength s <> 1024)
  /\ fst (record_worker_start env0 "/tmp" (args0 true)
            (world0 (hdr_mpeg_metaint "abc") (blit "abc")))
     = Raise ValueError.
Proof.
  split; [|reflexivity].
  eexists. eexists. split; [vm_compute; reflexivity|].
  cbn [icyMetaint readLength]. repeat split. discriminate.
Qed.

(** C2, amended. For a capture with ICY metadata asked for and a response
    whose content type is there and is not [audio/x-mpegurl]: if a header
    is named [icy-metaint] in lower case and its value parses as an integer
    other than zero, negative ones included, the header phase gives a
    session with metadata mode on and that integer as the read size; if
    that value parses as zero, or no header has the name in any case, it
    gives a session with metadata mode off and a read size of 1024. A value
    that does not parse as an integer gives no session: the worker raises
    [ValueError] before it creates a file. *)
Theorem C2_metadata_mode_and_read_size {C} `{HTTPResponse C} env target_dir
  args (w : World C) (ct : string) :
  icy args = true ->
  getheader (conn w) "Content-Type" = Some ct ->
  ct <> "audio/x-mpegurl"%string ->
  let hdr := getheader (conn w) "icy-metaint" in
  let named := "icy-metaint"%string ∈ map fst (getheaders (conn w)) in
  let start := record_worker_start env target_dir args w in
  (forall v z, named -> hdr = Some v ->
     py_int (int_max_str_digits env) v = Ok z -> z <> 0 ->
     exists s w', start = (Ok s, w')
       /\ metadata_mode args (icyMetaint s) = true /\ readLength s = z)
  /\ (forall v, named -> hdr = Some v ->
     py_int (int_max_str_digits env) v = Ok 0 ->
     exists s w', start = (Ok s, w')
       /\ metadata_mode args (icyMetaint s) = false /\ readLength s = 1024)
  /\ (hdr = None ->
     exists s w', start = (Ok s, w')
       /\ metadata_mode args (icyMetaint s) = false /\ readLength s = 1024)
  /\ (forall v e, named -> hdr = Some v ->
     py_int (int_max_str_digits env) v = Raise e ->
     exists w', start = (Raise ValueError, w') /\ fs w' = fs w).
Proof.
  intros Hi Hct Hm3u hdr named start. subst start.
  pose proof (start_spec env target_dir args w) as Hs. cbv zeta in Hs.
  assert (Hok : forall m, read_icyMetaint env args (conn w) = Ok m ->
            exists s w', record_worker_start env target_dir args w = (Ok s, w')
                         /\ icyMetaint s = m
                         /\ readLength s = read_length m).
  { intros m Hm.
    destruct (record_worker_start env target_dir args w) as [[s|e] w'].
    - destruct Hs as (_ & Hread & Hlen & _). exists s, w'.
      assert (icyMetaint s = m) as <- by congruence. auto.
    - destruct Hs as (_ & _ & _ & [[Hn _]|[[Hs _]|[_ Hr]]]); congruence. }
  split; [|split; [|split]].
  - intros v z Hn Hv Hz Hnz.
    destruct (read_icyMetaint_named env args (conn w) Hi Hn) as (v' & Hv' & Hr).
    assert (v' = v) as -> by (unfold hdr in Hv; congruence).
    rewrite Hz in Hr. cbn in Hr.
    destruct (Hok _ Hr) as (s & w' & -> & Hm & Hl). exists s, w'.
    split; [reflexivity|]. unfold metadata_mode. rewrite Hm, Hl, Hi. cbn.
    destruct (Z.eqb_spec z 0); [contradiction|]. split; reflexivity.
  - intros v Hn Hv Hz.
    destruct (read_icyMetaint_named env args (conn w) Hi Hn) as (v' & Hv' & Hr).
    assert (v' = v) as -> by (unfold hdr in Hv; congruence).
    rewrite Hz in Hr. cbn in Hr.
    destruct (Hok _ Hr) as (s & w' & -> & Hm & Hl). exists s, w'.
    split; [reflexivity|]. unfold metadata_mode. rewrite Hm, Hl, Hi.
    split; reflexivity.
  - intros Hnone.
    pose proof (read_icyMetaint_absent env args (conn w) Hi Hnone) as Hr.
    destruct (Hok _ Hr) as (s & w' & -> & Hm & Hl). exists s, w'.
    split; [reflexivity|]. unfold metadata_mode. rewrite Hm, Hl, Hi.
    split; reflexivity.
  - intros v e Hn Hv Hz.
    destruct (read_icyMetaint_named env args (conn w) Hi Hn) as (v' & Hv' & Hr).
    assert (v' = v) as -> by (unfold hdr in Hv; congruence).
    rewrite (py_int_raises _ _ _ Hz) in Hz. rewrite Hz in Hr. cbn in Hr.
    destruct (record_worker_start env target_dir args w) as [[s|e'] w'].
    + destruct Hs as (_ & Hread & _). congruence.
    + destruct Hs as (Hf & _ & _ & [[Hnn _]|[[Hs _]|[_ Hraise]]]);
        try congruence.
      exists w'. split; [|exact Hf]. congruence.
Qed.

Lemma C2_metadata_mode_and_read_size_witness :
  (exists s w',
     record_worker_start env0 "/tmp" (args0 true)
       (world0 (hdr_mpeg_metaint "8192") (blit "abc")) = (Ok s, w')
     /\ metadata_mode (args0 true) (icyMetaint s) = true
     /\ readLength s = 8192)
  /\ (exists s w',
        record_worker_start env0 "/tmp" (args0 true)
          (world0 (hdr_mpeg_metaint "0") (blit "abc")) = (Ok s, w')
        /\ metadata_mode (args0 true) (icyMetaint s) = false
        /\ readLength s = 1024)
  /\ (exists s w',
        record_worker_start env0 "/tmp" (args0 true)
          (world0 [("Content-Type", "audio/mpeg")]%string (blit "abc"))
        = (Ok s, w')
        /\ metadata_mode (args0 true) (icyMetaint s) = false
        /\ readLength s = 1024)
  /\ (exists w',
        record_worker_start env0 "/tmp" (args0 true)
          (world0 (hdr_mpeg_metaint "abc") (blit "abc"))
        = (Raise ValueError, w')
        /\ fs w' = fs (world0 (hdr_mpeg_metaint "abc") (blit "abc"))).
Proof.
  assert (Hne : "audio/mpeg"%string <> "audio/x-mpegurl"%string)
    by discriminate.
  split; [|split; [|split]].
  - destruct (C2_metadata_mode_and_read_size env0 "/tmp" (args0 true)
                (world0 (hdr_mpeg_metaint "8192") (blit "abc")) "audio/mpeg")
      as (Hon & _); [reflexivity | reflexivity | exact Hne |].
    apply (Hon "8192"%string 8192);
      [apply list_elem_of_In; cbn; auto | reflexivity | reflexivity | lia].
  - destruct (C2_metadata_mode_and_read_size env0 "/tmp" (args0 true)
                (world0 (hdr_mpeg_metaint "0") (blit "abc")) "audio/mpeg")
      as (_ & Hzero & _); [reflexivity | reflexivity | exact Hne |].
    apply (Hzero "0"%string);
      [apply list_elem_of_In; cbn; auto | reflexivity | reflexivity].
  - destruct (C2_metadata_mode_and_read_size env0 "/tmp" (args0 true)
                (world0 [("Content-Type", "audio/mpeg")]%string (blit "abc"))
                "audio/mpeg")
      as (_ & _ & Habsent & _); [reflexivity | reflexivity | exact Hne |].
    apply Habsent. reflexivity.
  - destruct (C2_metadata_mode_and_read_size env0 "/tmp" (args0 true)
                (world0 (hdr_mpeg_metaint "abc") (blit "abc")) "audio/mpeg")
      as (_ & _ & _ & Hraise); [reflexivity | reflexivity | exact Hne |].
    apply (Hraise "abc"%string ValueError);
      [apply list_elem_of_In; cbn; auto | reflexivity | reflexivity].
Defined.




(** C5. A stream that ends after one chunk of audio: in metadata mode the
    read of the length byte gives no byte, [ord] raises [TypeError], and
    the worker ends. The [with] block has closed the audio file; the
    sidecar, which is closed only by the lines after the block, stays open
    with its header line not flushed. *)
Theorem C5_sidecar_left_open_by_exception (n : nat) :
  let st := record_worker env0 "/tmp" (args0 true) (S n)
              (world0 (hdr_mpeg_metaint "1") (blit "a")) in
  fst st = Raised TypeError
  /\ f_closed <$> fs (snd st) !! audio0 = Some true
  /\ f_closed <$> fs (snd st) !! meta0 = Some false
  /\ f_dirty <$> fs (snd st) !! meta0 = Some true.
Proof.
  cbv zeta. unfold record_worker. cbn [steps].
  rewrite steps_terminated by (vm_compute; reflexivity).
  vm_compute. repeat split.
Qed.

(** C9. Signalling the event raises nothing and changes nothing but the
    flag, wherever the worker is: the phase, the files, the output and the
    connection stay as they were. A second signal changes nothing at all,
    and when the flag is set already the signal leaves the whole state as
    it is. When the worker has ended ([Returned] or [Raised]), it takes no
    further step after the signal. *)
Theorem C9_cancel_is_idempotent {C} `{HTTPResponse C} env args n
  (st : Phase * World C) :
  let st' := record_after_join st in
  fst st' = fst st
  /\ fs (snd st') = fs (snd st)
  /\ stdout (snd st') = stdout (snd st)
  /\ conn (snd st') = conn (snd st)
  /\ stoprec (snd st') = true
  /\ record_after_join st' = st'
  /\ (stoprec (snd st) = true -> st' = st)
  /\ (terminated (fst st) = true -> steps env args n st' = st').
Proof.
  intros st'. subst st'. unfold record_after_join, is_alive_attribute.
  cbn [fst snd].
  repeat split.
  - intros Hs. rewrite Event_set_already_set by exact Hs.
    destruct st; reflexivity.
  - intros Ht. apply steps_terminated. exact Ht.
Qed.

Lemma C9_cancel_is_idempotent_witness :
  (terminated (fst world_ended) = true
   /\ stoprec (snd world_ended) = false
   /\ fst (record_after_join world_ended) = Raised TypeError
   /\ fs (snd (record_after_join world_ended)) = fs (snd world_ended)
   /\ record_after_join (record_after_join world_ended)
      = record_after_join world_ended
   /\ steps env0 (args0 true) 3 (record_after_join world_ended)
      = record_after_join world_ended)
  /\ (terminated (fst world_signalled) = false
      /\ stoprec (snd world_signalled) = true
      /\ record_after_join world_signalled = world_signalled).
Proof.
  pose proof (C9_cancel_is_idempotent env0 (args0 true) 3 world_ended)
    as (Hp & Hf & _ & _ & _ & Hi & _ & Hn).
  pose proof (C9_cancel_is_idempotent env0 (args0 false) 3 world_signalled)
    as (_ & _ & _ & _ & _ & _ & Hs & _).
  split.
  - split; [reflexivity|]. split; [reflexivity|].
    split; [rewrite Hp; reflexivity|].
    split; [exact Hf|]. split; [exact Hi|].
    apply Hn. reflexivity.
  - split; [reflexivity|]. split; [reflexivity|].
    apply Hs. reflexivity.
Defined.

(* ===================================================================== *)
(** * Further properties                                                 *)
(* ===================================================================== *)

(** ** More on [parse_icy] *)

Lemma bind_Ok_r {A} (r : result A) : bind r Ok = r.
Proof. destruct r; reflexivity. Qed.

Lemma bytes_split_nonempty (sep : byte) (l : bytes) : bytes_split sep l <> [].
Proof.
  destruct l as [|x r]; cbn [bytes_split]; [discriminate|].
  destruct (Byte.eqb x sep); [discriminate|].
  destruct (bytes_split sep r); discriminate.
Qed.

(** Splitting at a separator that is written out splits the list of
    fields. *)
Lemma bytes_split_app_sep (sep : byte) (a b : bytes) :
  bytes_split sep (a ++ sep :: b) = bytes_split sep a ++ bytes_split sep b.
Proof.
  induction a as [|x r IH]; cbn [app bytes_split].
  - assert (Byte.eqb sep sep = true) as -> by (apply Byte.byte_dec_lb; reflexivity).
    reflexivity.
  - rewrite IH. destruct (Byte.eqb x sep); [reflexivity|].
    pose proof (bytes_split_nonempty sep r) as Hne.
    destruct (bytes_split sep r) as [|h t]; [contradiction|]. reflexivity.
Qed.

Lemma parse_icy_loop_app (l1 l2 : list bytes) (dta : dict) :
  parse_icy_loop dta (l1 ++ l2)
  = bind (parse_icy_loop dta l1) (fun d => parse_icy_loop d l2).
Proof.
  revert dta. induction l1 as [|v r IH]; intros dta; cbn [app parse_icy_loop].
  - reflexivity.
  - destruct (parse_icy_field dta v) as [d|e]; cbn [bind]; [apply IH|reflexivity].
Qed.

(** X1: an empty field changes nothing, wherever it stands. *)
Theorem parse_icy_empty_fields_ignored (a b : bytes) :
  parse_icy (a ++ ";"%byte :: ";"%byte :: b) = parse_icy (a ++ ";"%byte :: b)
  /\ parse_icy (";"%byte :: b) = parse_icy b
  /\ parse_icy (a ++ [";"%byte]) = parse_icy a.
Proof.
  unfold parse_icy. split; [|split].
  - rewrite !bytes_split_app_sep.
    change (bytes_split ";"%byte (";"%byte :: b))
      with ([] :: bytes_split ";"%byte b).
    rewrite !parse_icy_loop_app. reflexivity.
  - reflexivity.
  - rewrite bytes_split_app_sep, parse_icy_loop_app. cbn [bytes_split].
    cbn [parse_icy_loop parse_icy_field bind].
    destruct (parse_icy_loop [] (bytes_split ";"%byte a)); reflexivity.
Qed.

Lemma map_fst_dict_set_in (d : dict) (k v : str) :
  k ∈ map fst d -> map fst (dict_set d k v) = map fst d.
Proof.
  induction d as [|[k' v'] r IH]; cbn [dict_set map fst]; intros Hin.
  - inversion Hin.
  - destruct (str_eqb k' k) eqn:He.
    + apply str_eqb_eq in He as ->. reflexivity.
    + cbn [map fst]. f_equal. apply IH.
      apply elem_of_cons in Hin as [->|Hin]; [|exact Hin].
      assert (str_eqb k' k' = true) by (apply str_eqb_eq; reflexivity).
      congruence.
Qed.

Lemma map_fst_dict_set (d : dict) (k v : str) :
  map fst (dict_set d k v)
  = if bool_decide (k ∈ map fst d) then map fst d else map fst d ++ [k].
Proof.
  destruct (bool_decide_reflect (k ∈ map fst d)) as [Hin|Hnin].
  - apply map_fst_dict_set_in, Hin.
  - rewrite dict_set_fresh by exact Hnin. rewrite map_app. reflexivity.
Qed.

Lemma dict_set_NoDup (d : dict) (k v : str) :
  NoDup (map fst d) -> NoDup (map fst (dict_set d k v)).
Proof.
  intros Hnd. rewrite map_fst_dict_set.
  destruct (bool_decide_reflect (k ∈ map fst d)) as [Hin|Hnin]; [exact Hnd|].
  apply NoDup_app. split; [exact Hnd|]. split.
  - intros x Hx Hx'. apply list_elem_of_singleton in Hx' as ->. contradiction.
  - apply NoDup_singleton.
Qed.

Lemma dict_get_set_eq (d : dict) (k v : str) :
  dict_get (dict_set d k v) k = Some v.
Proof.
  assert (Hk : str_eqb k k = true) by (apply str_eqb_eq; reflexivity).
  induction d as [|[k' v'] r IH]; cbn [dict_set dict_get].
  - rewrite Hk. reflexivity.
  - destruct (str_eqb k' k) eqn:He; cbn [dict_get].
    + rewrite Hk. reflexivity.
    + rewrite He. exact IH.
Qed.

Lemma dict_get_set_ne (d : dict) (k k' v : str) :
  k' <> k -> dict_get (dict_set d k v) k' = dict_get d k'.
Proof.
  intros Hne.
  assert (Hk : str_eqb k k' = false).
  { destruct (str_eqb k k') eqn:He; [|reflexivity].
    apply str_eqb_eq in He. congruence. }
  induction d as [|[k0 v0] r IH]; cbn [dict_set dict_get].
  - rewrite Hk. reflexivity.
  - destruct (str_eqb k0 k) eqn:He; cbn [dict_get].
    + apply str_eqb_eq in He as ->. rewrite Hk. reflexivity.
    + rewrite IH. reflexivity.
Qed.

(** What a field that is not empty adds to the dict. *)
Lemma parse_icy_field_Ok (dta d : dict) (var : bytes) :
  var <> [] ->
  parse_icy_field dta var = Ok d ->
  exists key raw, utf8_decode var = Ok (key ++ 61 :: raw) /\ (61 ∉ key)
                  /\ d = dict_set dta key (slice 1 (-1) (strip raw)).
Proof.
  intros Hne. unfold parse_icy_field. destruct var as [|x r]; [contradiction|].
  destruct (utf8_decode (x :: r)) as [s|e]; cbn [bind]; [|discriminate].
  destruct (decide (61 ∈ s)) as [Hin|Hnin].
  - destruct (str_split1_has s Hin) as (a & b & -> & -> & Ha). cbn.
    intros [= <-]. exists a, b. auto.
  - rewrite (str_split1_hasnt s Hnin). discriminate.
Qed.

Lemma parse_icy_field_keyed (dta : dict) (var : bytes) (key raw : str) :
  var <> [] -> utf8_decode var = Ok (key ++ 61 :: raw) -> 61 ∉ key ->
  parse_icy_field dta var = Ok (dict_set dta key (slice 1 (-1) (strip raw))).
Proof.
  intros Hne Hdec Hk. unfold parse_icy_field.
  destruct var as [|x r]; [contradiction|].
  rewrite Hdec. cbn [bind]. rewrite (str_split1_app key raw Hk). reflexivity.
Qed.

Lemma parse_icy_field_NoDup (dta d : dict) (var : bytes) :
  NoDup (map fst dta) -> parse_icy_field dta var = Ok d -> NoDup (map fst d).
Proof.
  intros Hnd Hf. destruct var as [|x r].
  - cbn in Hf. injection Hf as <-. exact Hnd.
  - apply parse_icy_field_Ok in Hf as (k & raw & _ & _ & ->); [|discriminate].
    apply dict_set_NoDup, Hnd.
Qed.

Lemma parse_icy_loop_NoDup (vars : list bytes) (dta d : dict) :
  NoDup (map fst dta) -> parse_icy_loop dta vars = Ok d -> NoDup (map fst d).
Proof.
  revert dta. induction vars as [|v r IH]; intros dta Hnd; cbn [parse_icy_loop].
  - intros [= <-]. exact Hnd.
  - destruct (parse_icy_field dta v) as [d'|e] eqn:Hf; cbn [bind];
      [|discriminate].
    apply IH. eapply parse_icy_field_NoDup; eauto.
Qed.

(** The result of [parse_icy] has no key twice. *)
Lemma parse_icy_keys_distinct (metadata : bytes) (d : dict) :
  parse_icy metadata = Ok d -> NoDup (map fst d).
Proof. apply parse_icy_loop_NoDup. apply NoDup_nil_2. Qed.

(** X2: a field appended to a block sets its key to its value after the
    block was parsed: the last value of a key wins, a key that was there
    keeps its place, and the other keys keep their values. *)
Theorem parse_icy_later_field_wins (block var : bytes) (d : dict)
  (key raw : str) :
  parse_icy block = Ok d ->
  Forall (fun b => Byte.eqb b ";"%byte = false) var ->
  utf8_decode var = Ok (key ++ 61 :: raw) ->
  61 ∉ key ->
  exists d',
    parse_icy (block ++ ";"%byte :: var) = Ok d'
    /\ dict_get d' key = Some (slice 1 (-1) (strip raw))
    /\ (forall k, k <> key -> dict_get d' k = dict_get d k)
    /\ (key ∈ map fst d -> map fst d' = map fst d)
    /\ (key ∉ map fst d -> map fst d' = map fst d ++ [key]).
Proof.
  intros Hblock Hvar Hdec Hkey.
  exists (dict_set d key (slice 1 (-1) (strip raw))).
  assert (Hne : var <> []).
  { intros ->. cbn in Hdec. injection Hdec as Hdec.
    destruct key; discriminate Hdec. }
  assert (Hsplit : bytes_split ";"%byte var = [var]).
  { clear -Hvar. induction Hvar as [|x r Hx Hr IH]; cbn [bytes_split].
    - reflexivity.
    - rewrite Hx, IH. reflexivity. }
  split; [|split; [|split; [|split]]].
  - unfold parse_icy in *. rewrite bytes_split_app_sep, parse_icy_loop_app.
    rewrite Hblock, Hsplit. cbn [bind parse_icy_loop].
    rewrite (parse_icy_field_keyed d var key raw Hne Hdec Hkey). reflexivity.
  - apply dict_get_set_eq.
  - intros k Hk. apply dict_get_set_ne, Hk.
  - apply map_fst_dict_set_in.
  - intros Hnin. rewrite dict_set_fresh by exact Hnin. rewrite map_app.
    reflexivity.
Qed.

Ltac bools :=
  repeat match goal with
  | H : _ && _ = true |- _ => apply andb_true_iff in H; destruct H
  | H : _ && _ = false |- _ => apply andb_false_iff in H
  | H : (_ <=? _) = true |- _ => apply Z.leb_le in H
  | H : (_ <=? _) = false |- _ => apply Z.leb_gt in H
  | H : (_ <? _) = true |- _ => apply Z.ltb_lt in H
  | H : (_ <? _) = false |- _ => apply Z.ltb_ge in H
  | H : (_ =? _) = true |- _ => apply Z.eqb_eq in H
  | H : (_ =? _) = false |- _ => apply Z.eqb_neq in H
  | H : _ \/ _ |- _ => destruct H
  end.

(** What [bytes.decode] returns: code points that are valid, and an ASCII
    character only for a byte of that value. *)
Lemma utf8_decode_sound (bs : bytes) (s : str) :
  utf8_decode bs = Ok s ->
  Forall (fun c => valid_cp c /\ (c < 0x80 -> exists b, b ∈ bs /\ bv b = c)) s.
Proof.
  remember (length bs) as n eqn:Hn. revert bs s Hn.
  induction n as [n IH] using (well_founded_induction Nat.lt_wf_0).
  intros bs s Hn. destruct bs as [|b0 r0].
  { intros [= <-]. constructor. }
  assert (Hrec : forall c r, (length r < n)%nat ->
            (forall b, b ∈ r -> b ∈ b0 :: r0) ->
            (valid_cp c /\ (c < 0x80 -> bv b0 = c)) ->
            cons_ok c (utf8_decode r) = Ok s ->
            Forall (fun c => valid_cp c
                             /\ (c < 0x80 -> exists b, b ∈ b0 :: r0 /\ bv b = c))
                   s).
  { intros c r Hlt Hsub [Hv Hc]. unfold cons_ok.
    destruct (utf8_decode r) as [s'|e'] eqn:Hr; cbn; [|discriminate].
    intros [= <-]. constructor.
    - split; [exact Hv|]. intros Hlow. exists b0.
      split; [apply elem_of_cons; auto|auto].
    - eapply Forall_impl; [eapply (IH _ Hlt r s' eq_refl Hr)|].
      intros c' [Hv' Hc']. split; [exact Hv'|].
      intros Hlow. destruct (Hc' Hlow) as (b & Hb & Hbv). eauto. }
  rewrite utf8_decode_cons. cbv zeta. unfold second_ok3, second_ok4, is_cont.
  cbn [length] in Hn.
  pose proof (bv_range b0) as Hb0.
  repeat match goal with
  | |- context [if ?c then _ else _] => destruct c eqn:?
  | |- context [match ?l with [] => _ | _ :: _ => _ end] => destruct l
  | |- Raise _ = Ok _ -> _ => discriminate
  end;
  (apply Hrec;
   [ subst n; cbn [length]; lia
   | let bb := fresh "bb" in let Hbb := fresh "Hbb" in
     intros bb Hbb; repeat (apply elem_of_cons; right); exact Hbb
   | ]);
  repeat match goal with
  | b : byte |- _ => lazymatch goal with
                     | H : 0 <= bv b < 256 |- _ => fail
                     | _ => pose proof (bv_range b)
                     end
  end;
  bools; unfold valid_cp; (split; [lia|intros; lia]).
Qed.

Lemma utf8_encode_char_valid (c : Z) :
  valid_cp c -> exists b, utf8_encode_char c = Ok b.
Proof.
  intros [Hr Hs]. unfold utf8_encode_char.
  repeat match goal with
  | |- context [if ?c then _ else _] => destruct c eqn:?
  end; try (eexists; reflexivity); bools; lia.
Qed.

Lemma utf8_encode_valid (s : str) :
  Forall valid_cp s -> exists b, utf8_encode s = Ok b.
Proof.
  induction 1 as [|c r Hc Hr [b IH]]; cbn [utf8_encode].
  - eexists. reflexivity.
  - destruct (utf8_encode_char_valid c Hc) as [h ->]. rewrite IH.
    eexists. reflexivity.
Qed.

Lemma lstrip_suffix (s : str) : exists p, s = p ++ lstrip s.
Proof.
  induction s as [|c r [p IH]]; cbn [lstrip].
  - exists []. reflexivity.
  - destruct (isspace c).
    + exists (c :: p). cbn. f_equal. exact IH.
    + exists []. reflexivity.
Qed.

Lemma strip_part (s : str) : exists p q, s = p ++ strip s ++ q.
Proof.
  unfold strip, rstrip.
  destruct (lstrip_suffix s) as [p Hp].
  destruct (lstrip_suffix (rev (lstrip s))) as [q Hq].
  exists p, (rev q). rewrite <- rev_app_distr, <- Hq, rev_involutive. exact Hp.
Qed.

Lemma slice_part {A} (i j : Z) (s : list A) :
  exists p q, s = p ++ slice i j s ++ q.
Proof.
  unfold slice.
  match goal with
  | |- context [firstn ?n (skipn ?lo s)] =>
      exists (firstn lo s), (skipn n (skipn lo s));
      rewrite (firstn_skipn n (skipn lo s)), (firstn_skipn lo s)
  end.
  reflexivity.
Qed.

(** The value of a field is a part of its raw value. *)
Lemma value_part (raw : str) :
  exists p q, raw = p ++ slice 1 (-1) (strip raw) ++ q.
Proof.
  destruct (strip_part raw) as (p & q & Hs).
  destruct (slice_part 1 (-1) (strip raw)) as (p' & q' & Hv).
  exists (p ++ p'), (q' ++ q). rewrite Hs at 1. rewrite Hv at 1.
  rewrite <- !app_assoc. reflexivity.
Qed.

Lemma bytes_split_fields (l f : bytes) :
  f ∈ bytes_split ";"%byte l ->
  Forall (fun b => Byte.eqb b ";"%byte = false) f.
Proof.
  revert f. induction l as [|x r IH]; intros f; cbn [bytes_split].
  - intros Hin. apply list_elem_of_singleton in Hin as ->. constructor.
  - destruct (Byte.eqb x ";"%byte) eqn:Hx.
    + intros Hin. apply elem_of_cons in Hin as [->|Hin]; [constructor|].
      apply IH, Hin.
    + pose proof (bytes_split_nonempty ";"%byte r) as Hne.
      destruct (bytes_split ";"%byte r) as [|h t]; [contradiction|].
      intros Hin. apply elem_of_cons in Hin as [->|Hin].
      * constructor; [exact Hx|]. apply IH, elem_of_cons. auto.
      * apply IH, elem_of_cons. auto.
Qed.

(** The text of a field has no [;], and only valid code points. *)
Lemma field_text (var : bytes) (s : str) :
  Forall (fun b => Byte.eqb b ";"%byte = false) var ->
  utf8_decode var = Ok s ->
  Forall (fun c => valid_cp c /\ c <> 59) s.
Proof.
  intros Hvar Hdec. eapply Forall_impl; [apply utf8_decode_sound, Hdec|].
  intros c [Hv Hlow]. split; [exact Hv|]. intros ->.
  destruct Hlow as (b & Hb & Hbv); [lia|].
  rewrite Forall_forall in Hvar. specialize (Hvar b Hb).
  assert (b = ";"%byte) as ->.
  { rewrite <- (byte_of_Z_bv b), Hbv. reflexivity. }
  discriminate Hvar.
Qed.

(** The pairs of a dict that all satisfy a property. *)
Lemma dict_set_Forall (P : str * str -> Prop) (d : dict) (k v : str) :
  Forall P d -> P (k, v) -> Forall P (dict_set d k v).
Proof.
  induction 1 as [|[k' v'] r Hkv Hr IH]; intros Hp; cbn [dict_set].
  - repeat constructor. exact Hp.
  - destruct (str_eqb k' k); constructor; auto.
Qed.

Lemma parse_icy_field_clean (dta d : dict) (var : bytes) :
  Forall (fun b => Byte.eqb b ";"%byte = false) var ->
  Forall clean_pair dta -> parse_icy_field dta var = Ok d ->
  Forall clean_pair d.
Proof.
  intros Hvar Hd Hf. destruct var as [|x r].
  - cbn in Hf. injection Hf as <-. exact Hd.
  - apply parse_icy_field_Ok in Hf as (k & raw & Hdec & Hk & ->);
      [|discriminate].
    pose proof (field_text _ _ Hvar Hdec) as Ht.
    apply Forall_app in Ht as [Htk Htr]. apply Forall_cons in Htr as [_ Htr].
    apply dict_set_Forall; [exact Hd|]. split; cbn [fst snd].
    + rewrite Forall_forall in *. intros c Hc.
      destruct (Htk c Hc) as [Hv Hn59].
      split; [exact Hv|]. split; [exact Hn59|]. intros ->. apply Hk, Hc.
    + destruct (value_part raw) as (p & q & Hv). rewrite Hv in Htr.
      apply Forall_app in Htr as [_ Htr]. apply Forall_app in Htr as [Htr _].
      exact Htr.
Qed.

Lemma parse_icy_loop_clean (vars : list bytes) (dta d : dict) :
  Forall (Forall (fun b => Byte.eqb b ";"%byte = false)) vars ->
  Forall clean_pair dta -> parse_icy_loop dta vars = Ok d ->
  Forall clean_pair d.
Proof.
  intros Hvars. revert dta.
  induction Hvars as [|v r Hv Hr IH]; intros dta Hd; cbn [parse_icy_loop].
  - intros [= <-]. exact Hd.
  - destruct (parse_icy_field dta v) as [d'|e] eqn:Hf; cbn [bind];
      [|discriminate].
    apply IH. eapply parse_icy_field_clean; eauto.
Qed.

Lemma parse_icy_clean (metadata : bytes) (d : dict) :
  parse_icy metadata = Ok d -> Forall clean_pair d.
Proof.
  apply parse_icy_loop_clean; [|constructor].
  apply Forall_forall. intros f Hf. eapply bytes_split_fields, Hf.
Qed.

(** X3: no key of the result has [=] or [;], and no value has [;]. *)
Theorem parse_icy_no_separators (metadata : bytes) (d : dict) (k v : str) :
  parse_icy metadata = Ok d -> (k, v) ∈ d ->
  (61 ∉ k) /\ (59 ∉ k) /\ (59 ∉ v).
Proof.
  intros Hp Hin. pose proof (parse_icy_clean _ _ Hp) as Hc.
  rewrite Forall_forall in Hc. destruct (Hc _ Hin) as [Hk Hv].
  cbn [fst snd] in *. rewrite Forall_forall in Hk, Hv.
  repeat split; intros Hc'.
  - destruct (Hk _ Hc') as (_ & _ & ?). congruence.
  - destruct (Hk _ Hc') as (_ & ? & _). congruence.
  - destruct (Hv _ Hc') as (_ & ?). congruence.
Qed.

Lemma icy_pair_text_valid (kv : str * str) :
  clean_pair kv -> Forall valid_cp (icy_pair_text kv).
Proof.
  intros [Hk Hv]. unfold icy_pair_text.
  assert (Hlit : forall c, c ∈ [61; 39; 59] -> valid_cp c).
  { intros c Hc. unfold valid_cp.
    repeat (apply elem_of_cons in Hc as [->|Hc]; [lia|]). inversion Hc. }
  repeat apply Forall_app_2.
  - eapply Forall_impl; [exact Hk|]. intros c Hc. apply Hc.
  - repeat constructor; apply Hlit; set_solver.
  - eapply Forall_impl; [exact Hv|]. intros c Hc. apply Hc.
  - repeat constructor; apply Hlit; set_solver.
Qed.

(** X4: what [parse_icy] returns is a fixed point of the round trip: its
    pairs, written as [key='value';] and encoded, parse to the same dict. *)
Theorem parse_icy_result_round_trips (metadata : bytes) (d : dict) :
  parse_icy metadata = Ok d ->
  exists bs, icy_encode d = Ok bs /\ parse_icy bs = Ok d.
Proof.
  intros Hp.
  pose proof (parse_icy_clean _ _ Hp) as Hc.
  pose proof (parse_icy_keys_distinct _ _ Hp) as Hnd.
  destruct (utf8_encode_valid (concat (map icy_pair_text d))) as [bs Hbs].
  { clear -Hc. induction Hc as [|kv r Hkv Hr IH]; cbn [map concat].
    - constructor.
    - apply Forall_app_2; [apply icy_pair_text_valid, Hkv|exact IH]. }
  exists bs. split; [exact Hbs|].
  unfold parse_icy. apply (parse_icy_loop_encoded d [] bs).
  - exact Hnd.
  - intros k v Hin. rewrite Forall_forall in Hc.
    destruct (Hc _ Hin) as [Hk Hv]. cbn [fst snd] in *.
    rewrite Forall_forall in Hk, Hv. repeat split; intros Hc'.
    + destruct (Hk _ Hc') as (_ & ? & _). congruence.
    + destruct (Hk _ Hc') as (_ & _ & ?). congruence.
    + destruct (Hv _ Hc') as (_ & ?). congruence.
  - exact Hbs.
Qed.



Lemma parse_icy_loop_raises (vars : list bytes) (dta : dict) (e : exn) :
  parse_icy_loop dta vars = Raise e ->
  exists field, field ∈ vars /\ field <> []
    /\ ((exists e, utf8_decode field = Raise e)
        \/ (exists s, utf8_decode field = Ok s /\ 61 ∉ s)).
Proof.
  revert dta. induction vars as [|v r IH]; intros dta; cbn [parse_icy_loop].
  - discriminate.
  - destruct (parse_icy_field dta v) as [d'|e'] eqn:Hf; cbn [bind].
    + intros Hr. destruct (IH _ Hr) as (f & Hin & Hrest).
      exists f. split; [apply elem_of_cons; auto|exact Hrest].
    + intros _. apply parse_icy_field_raises in Hf as [Hne Hcase].
      exists v. split; [apply elem_of_cons; auto|]. split; [exact Hne|].
      destruct Hcase as [[Hd _]|(s & Hs & Hn & _)]; eauto.
Qed.

(** X6: [parse_icy] raises exactly for the blocks that are malformed. *)
Theorem parse_icy_raises_iff_malformed (metadata : bytes) :
  (exists e, parse_icy metadata = Raise e) <-> malformed metadata.
Proof.
  split.
  - intros [e He]. eapply parse_icy_loop_raises, He.
  - intros Hm. destruct (parse_icy_malformed _ Hm) as (e & He & _). eauto.
Qed.

(* --------------------------------------------------------------------- *)
(** ** What the loop keeps                                               *)
(* --------------------------------------------------------------------- *)

(** A relation between the world before and the world after that every
    operation of the loop on the audio file [f] and the sidecar [mt]
    respects is respected by any number of steps. *)
Section Frame.

Context {C : Type} `{HTTPResponse C}.
Variable P : World C -> World C -> Prop.
Variables (env : Env) (args : Args) (f : string) (mt : option string).

Hypothesis P_refl : forall w, P w w.
Hypothesis P_trans : forall a b c, P a b -> P b c -> P a c.
Hypothesis P_print : forall line w, P w (snd (verboseprint args line w)).
Hypothesis P_read : forall n w, P w (snd (read n w)).
Hypothesis P_write : forall b w, P w (set_fs (file_write f b) w).
Hypothesis P_close : forall w, P w (set_fs (file_close f) w).
Hypothesis P_write_meta :
  forall m b w, mt = Some m -> P w (set_fs (file_write m b) w).
Hypothesis P_flush_meta :
  forall m w, mt = Some m -> P w (set_fs (file_flush m) w).
Hypothesis P_close_meta :
  forall m w, mt = Some m -> P w (set_fs (file_close m) w).

Lemma frame_bind {A B} (m : M C A) (k : A -> M C B) :
  (forall w, P w (snd (m w))) -> (forall a w, P w (snd (k a w))) ->
  forall w, P w (snd (mbind m k w)).
Proof.
  intros Hm Hk w. unfold mbind. specialize (Hm w).
  destruct (m w) as [[a|e] w1]; cbn [snd] in *; [|exact Hm].
  eapply P_trans; [exact Hm|apply Hk].
Qed.

Lemma frame_lift {A} (r : result A) : forall w, P w (snd (lift (C:=C) r w)).
Proof. intros w. apply P_refl. Qed.

Lemma frame_ret {A} (a : A) : forall w, P w (snd (ret (C:=C) a w)).
Proof. intros w. apply P_refl. Qed.

Lemma frame_write_meta_lines (s : Session) (items : dict) :
  metaTarget s = mt ->
  forall w, P w (snd (write_meta_lines env args s items w)).
Proof.
  intros Hmt. induction items as [|[k v] r IH]; cbn [write_meta_lines].
  - apply frame_ret.
  - apply frame_bind; [apply P_print|]. intros _.
    apply frame_bind; [|intros _; exact IH].
    destruct (metaTarget s) as [m|] eqn:Hm; [|apply frame_ret].
    apply frame_bind; [apply frame_lift|]. intros b.
    apply frame_bind; intros; cbn; [apply P_write_meta|apply P_flush_meta];
      congruence.
Qed.

Lemma frame_loop_body (s : Session) :
  filename s = f -> metaTarget s = mt ->
  forall w, P w (snd (loop_body env args s w)).
Proof.
  intros Hf Hmt. unfold loop_body.
  apply frame_bind; [apply P_read|]. intros chunk.
  apply frame_bind; [intros w; cbn; rewrite Hf; apply P_write|]. intros _.
  destruct (icy args && truthy (icyMetaint s)); [|apply frame_ret].
  apply frame_bind; [apply P_read|]. intros b.
  apply frame_bind; [apply frame_lift|]. intros n.
  destruct (n * 16 >? 0); [|apply frame_ret].
  apply frame_bind; [apply P_read|]. intros raw.
  destruct (List.filter _ raw); [apply frame_ret|].
  apply frame_bind; [apply frame_lift|]. intros items.
  apply frame_write_meta_lines, Hmt.
Qed.

Lemma frame_close_meta (s : Session) (w : World C) :
  metaTarget s = mt -> P w (set_fs (close_meta args s) w).
Proof.
  intros Hmt. unfold close_meta. rewrite Hmt.
  assert (Hid : set_fs (fun m : gmap string File => m) w = w)
    by (destruct w; reflexivity).
  destruct mt as [m|]; [|rewrite Hid; apply P_refl].
  destruct (icy args); [|rewrite Hid; apply P_refl].
  eapply P_trans; [apply (P_flush_meta m w eq_refl)|].
  apply (P_close_meta m (set_fs (file_flush m) w) eq_refl).
Qed.

Lemma frame_step (s : Session) (w : World C) :
  filename s = f -> metaTarget s = mt ->
  P w (snd (record_worker_step env args (Streaming s, w))).
Proof.
  intros Hf Hmt. cbn [record_worker_step].
  destruct (negb (stoprec w) && negb (conn_closed (conn w))).
  - pose proof (frame_loop_body s Hf Hmt w) as Hb.
    destruct (loop_body env args s w) as [[u|e] w1]; cbn [snd] in *;
      [exact Hb|].
    eapply P_trans; [exact Hb|]. rewrite Hf. apply P_close.
  - cbn [snd]. rewrite Hf. eapply P_trans; [apply P_close|].
    apply frame_close_meta, Hmt.
Qed.

Lemma frame_steps (n : nat) (s : Session) (w : World C) :
  filename s = f -> metaTarget s = mt ->
  P w (snd (steps env args n (Streaming s, w))).
Proof.
  revert s w. induction n as [|n IH]; intros s w Hf Hmt; cbn [steps].
  - apply P_refl.
  - pose proof (frame_step s w Hf Hmt) as Hs.
    destruct (record_worker_step env args (Streaming s, w)) as [[s'| |e] w']
      eqn:Hstep; cbn [snd] in Hs.
    + eapply P_trans; [exact Hs|]. apply IH.
      * cbn [record_worker_step] in Hstep.
        destruct (negb (stoprec w) && negb (conn_closed (conn w)));
          [|discriminate].
        destruct (loop_body env args s w) as [[u|e] w1]; [|discriminate].
        injection Hstep as <- _. exact Hf.
      * cbn [record_worker_step] in Hstep.
        destruct (negb (stoprec w) && negb (conn_closed (conn w)));
          [|discriminate].
        destruct (loop_body env args s w) as [[u|e] w1]; [|discriminate].
        injection Hstep as <- _. exact Hmt.
    + rewrite steps_terminated by reflexivity. exact Hs.
    + rewrite steps_terminated by reflexivity. exact Hs.
Qed.

End Frame.

Section Loop.

Context {C : Type} `{HTTPResponse C}.

Lemma step_streaming env args (s s' : Session) (w w' : World C) :
  record_worker_step env args (Streaming s, w) = (Streaming s', w') ->
  s' = next_passage s.
Proof.
  cbn [record_worker_step].
  destruct (negb (stoprec w) && negb (conn_closed (conn w))); [|discriminate].
  destruct (loop_body env args s w) as [[u|e] w1]; [|discriminate].
  intros [= <- _]. reflexivity.
Qed.

(** The session is fixed while the worker is in the loop: the names of
    the two files, the metadata interval and the read size stay what the
    headers gave, and only the count of passages moves. *)
Lemma session_fixed_in_loop env args n (s s' : Session) (w w' : World C) :
  steps env args n (Streaming s, w) = (Streaming s', w') ->
  filename s' = filename s
  /\ metaTarget s' = metaTarget s
  /\ icyMetaint s' = icyMetaint s
  /\ readLength s' = readLength s
  /\ passage s' = (passage s + n)%nat.
Proof.
  revert s w. induction n as [|n IH]; intros s w; cbn [steps].
  - intros [= <- _]. rewrite Nat.add_0_r. repeat split.
  - destruct (record_worker_step env args (Streaming s, w)) as [[s1| |e] w1]
      eqn:Hstep.
    + apply step_streaming in Hstep as ->. intros Hn.
      destruct (IH _ _ Hn) as (-> & -> & -> & -> & ->).
      cbn [next_passage filename metaTarget icyMetaint readLength passage].
      repeat split. lia.
    + rewrite steps_terminated by reflexivity. discriminate.
    + rewrite steps_terminated by reflexivity. discriminate.
Qed.

(** X7: the worker reads the event and never sets or clears it. *)
Theorem worker_leaves_the_event env target_dir args n (w : World C) :
  stoprec (snd (record_worker env target_dir args n w)) = stoprec w.
Proof.
  unfold record_worker, record_worker_begin.
  pose proof (start_spec env target_dir args w) as Hs. cbv zeta in Hs.
  destruct (record_worker_start env target_dir args w) as [[s|e] w1].
  - destruct Hs as (_ & _ & _ & _ & _ & _ & _ & Hflag & _).
    rewrite <- Hflag.
    apply (frame_steps (fun a b => stoprec b = stoprec a) env args
             (filename s) (metaTarget s)); try reflexivity; intros; cbn;
      try congruence.
    + unfold verboseprint. destruct (verbose args); reflexivity.
    + unfold read. destruct (conn_read n0 (conn w0)). reflexivity.
  - rewrite steps_terminated by reflexivity. apply Hs.
Qed.

Lemma f_data_alter (g : File -> File) (k name : string)
  (m : gmap string File) :
  (forall x, exists t, f_data (g x) = f_data x ++ t) ->
  forall d, f_data <$> m !! name = Some d ->
  exists t, f_data <$> alter g k m !! name = Some (d ++ t).
Proof.
  intros Hg d Hd. destruct (decide (k = name)) as [->|Hne].
  - rewrite lookup_alter_eq. destruct (m !! name) as [x|]; [|discriminate].
    cbn in *. injection Hd as <-. destruct (Hg x) as [t Ht]. exists t.
    rewrite Ht. reflexivity.
  - rewrite lookup_alter_ne by exact Hne. exists []. rewrite app_nil_r.
    exact Hd.
Qed.

Lemma steps_only_append env args n (s : Session) (w : World C)
  (name : string) (d : bytes) :
  f_data <$> fs w !! name = Some d ->
  exists t, f_data <$> fs (snd (steps env args n (Streaming s, w))) !! name
            = Some (d ++ t).
Proof.
  revert name d.
  apply (frame_steps
           (fun a b => forall name d, f_data <$> fs a !! name = Some d ->
              exists t, f_data <$> fs b !! name = Some (d ++ t))
           env args (filename s) (metaTarget s)); try reflexivity.
  - intros w0 name d Hd. exists []. rewrite app_nil_r. exact Hd.
  - intros a b c Hab Hbc name d Hd. destruct (Hab _ _ Hd) as [t Ht].
    destruct (Hbc _ _ Ht) as [t' Ht']. exists (t ++ t').
    rewrite app_assoc. exact Ht'.
  - intros line w0 name d Hd. unfold verboseprint.
    destruct (verbose args); cbn; exists []; rewrite app_nil_r; exact Hd.
  - intros n0 w0 name d Hd. unfold read.
    destruct (conn_read n0 (conn w0)). cbn. exists []. rewrite app_nil_r.
    exact Hd.
  - intros b w0 name d Hd. cbn. apply f_data_alter; [|exact Hd].
    intros x. exists b. reflexivity.
  - intros w0 name d Hd. cbn. apply f_data_alter; [|exact Hd].
    intros x. exists []. cbn. rewrite app_nil_r. reflexivity.
  - intros m b w0 _ name d Hd. cbn. apply f_data_alter; [|exact Hd].
    intros x. exists b. reflexivity.
  - intros m w0 _ name d Hd. cbn. apply f_data_alter; [|exact Hd].
    intros x. exists []. cbn. rewrite app_nil_r. reflexivity.
  - intros m w0 _ name d Hd. cbn. apply f_data_alter; [|exact Hd].
    intros x. exists []. cbn. rewrite app_nil_r. reflexivity.
Qed.

(** X8: in the loop the worker only appends to files: what a file holds
    stays, as the beginning of what it holds later. *)
Theorem loop_only_appends env args n (s : Session) (w : World C)
  (name : string) (d : bytes) :
  f_data <$> fs w !! name = Some d ->
  exists t, f_data <$> fs (snd (steps env args n (Streaming s, w))) !! name
            = Some (d ++ t).
Proof. apply steps_only_append. Qed.

End Loop.

Section Files.

Context {C : Type} `{HTTPResponse C}.

(** X9: the files of a capture. When the headers are accepted, the worker
    has created the audio file, named by the base name and one of the
    three extensions, and the sidecar in metadata mode, and no other file,
    at any later step; when the header phase raises, for whatever reason,
    the files are exactly what they were. *)
Theorem files_of_a_capture env target_dir args n (w : World C) :
  let base := base_filename env target_dir args in
  match record_worker_start env target_dir args w with
  | (Ok s, _) =>
      (filename s = base +:+ ".mp3" \/ filename s = base +:+ ".aac"
       \/ filename s = base +:+ ".ogg")
      /\ dom (fs (snd (record_worker env target_dir args n w)))
         = {[filename s]}
           ∪ ((if metadata_mode args (icyMetaint s)
               then {[base +:+ ".meta"]} else ∅)
              ∪ dom (fs w))
  | (Raise e, _) =>
      fst (record_worker env target_dir args n w) = Raised e
      /\ fs (snd (record_worker env target_dir args n w)) = fs w
  end.
Proof.
  intros base. unfold record_worker, record_worker_begin.
  pose proof (start_spec env target_dir args w) as Hs. cbv zeta in Hs.
  fold base in Hs.
  destruct (record_worker_start env target_dir args w) as [[s|e] w1].
  - destruct Hs as (_ & _ & _ & _ & Hfn & _ & _ & _ & Hd).
    split; [exact Hfn|]. rewrite steps_keep_files. exact Hd.
  - rewrite steps_terminated by reflexivity. split; [reflexivity|apply Hs].
Qed.

Lemma steps_exit_closes_audio env args n (s : Session) (w : World C) :
  filename s ∈ dom (fs w) ->
  terminated (fst (steps env args n (Streaming s, w))) = true ->
  f_closed <$> fs (snd (steps env args n (Streaming s, w))) !! filename s
  = Some true.
Proof.
  revert s w. induction n as [|n IH]; intros s w Hin; cbn [steps].
  - discriminate.
  - pose proof (exit_closes_audio env args s w Hin) as Hexit.
    pose proof (step_keeps_files env args (Streaming s, w)) as Hdom.
    destruct (record_worker_step env args (Streaming s, w)) as [[s1| |e] w1]
      eqn:Hstep; cbn [fst snd] in *.
    + apply step_streaming in Hstep as ->.
      apply (IH (next_passage s) w1). cbn. rewrite Hdom. exact Hin.
    + rewrite steps_terminated by reflexivity. intros _. apply Hexit.
      reflexivity.
    + rewrite steps_terminated by reflexivity. intros _. apply Hexit.
      reflexivity.
Qed.

Lemma steps_return_closes_sidecar env args n (s : Session) (w : World C)
  (m : string) :
  metaTarget s = Some m -> icy args = true -> m ∈ dom (fs w) ->
  fst (steps env args n (Streaming s, w)) = Returned ->
  exists f, fs (snd (steps env args n (Streaming s, w))) !! m = Some f
            /\ f_closed f = true /\ f_dirty f = false.
Proof.
  intros Hm Hi. revert s w Hm. induction n as [|n IH]; intros s w Hm Hin;
    cbn [steps].
  - discriminate.
  - pose proof (return_closes_sidecar env args s w m Hm Hi Hin) as Hexit.
    pose proof (step_keeps_files env args (Streaming s, w)) as Hdom.
    destruct (record_worker_step env args (Streaming s, w)) as [[s1| |e] w1]
      eqn:Hstep; cbn [fst snd] in *.
    + apply step_streaming in Hstep as ->.
      apply (IH (next_passage s) w1); [exact Hm|]. rewrite Hdom. exact Hin.
    + rewrite steps_terminated by reflexivity. intros _. apply Hexit.
      reflexivity.
    + rewrite steps_terminated by reflexivity. discriminate.
Qed.

(** X10: when the worker is out of the loop, however it left it, the audio
    file is closed; and when it left by the loop condition (cancellation
    or a closed connection), the sidecar of metadata mode is flushed and
    closed as well. *)
Theorem files_closed_at_the_end env target_dir args n (w w1 : World C)
  (s : Session) :
  record_worker_start env target_dir args w = (Ok s, w1) ->
  let st := record_worker env target_dir args n w in
  (terminated (fst st) = true ->
   f_closed <$> fs (snd st) !! filename s = Some true)
  /\ (fst st = Returned -> forall m, metaTarget s = Some m ->
      exists f, fs (snd st) !! m = Some f
                /\ f_closed f = true /\ f_dirty f = false).
Proof.
  intros Hstart. unfold record_worker, record_worker_begin.
  pose proof (start_spec env target_dir args w) as Hs. cbv zeta in Hs.
  rewrite Hstart in Hs. rewrite Hstart. cbv zeta.
  destruct Hs as (_ & _ & _ & Hmt & _ & _ & _ & _ & Hd).
  split.
  - apply steps_exit_closes_audio. rewrite Hd. apply elem_of_union_l.
    apply elem_of_singleton. reflexivity.
  - intros Hret m Hm. rewrite Hm in Hmt.
    destruct (metadata_mode args (icyMetaint s)) eqn:Hmode; [|discriminate].
    injection Hmt as ->.
    apply steps_return_closes_sidecar; auto.
    + unfold metadata_mode in Hmode. apply andb_true_iff in Hmode. apply Hmode.
    + rewrite Hd. apply elem_of_union_r, elem_of_union_l.
      apply elem_of_singleton. reflexivity.
Qed.

Lemma f_data_alter_same (g : File -> File) (k name : string)
  (m : gmap string File) :
  (forall x, f_data (g x) = f_data x) ->
  f_data <$> alter g k m !! name = f_data <$> m !! name.
Proof.
  intros Hg. destruct (decide (k = name)) as [->|Hne].
  - rewrite lookup_alter_eq. destruct (m !! name) as [x|]; [|reflexivity].
    cbn. rewrite Hg. reflexivity.
  - rewrite lookup_alter_ne by exact Hne. reflexivity.
Qed.

Lemma f_data_close_meta args (s : Session) (name : string)
  (m : gmap string File) :
  f_data <$> close_meta args s m !! name = f_data <$> m !! name.
Proof.
  unfold close_meta. destruct (metaTarget s); [|reflexivity].
  destruct (icy args); [|reflexivity].
  unfold file_close, file_flush.
  rewrite !f_data_alter_same by reflexivity. reflexivity.
Qed.

Lemma ignores_event_ret {A} (a : A) : ignores_event (C := C) (ret a).
Proof. intros w. reflexivity. Qed.

Lemma ignores_event_lift {A} (r : result A) : ignores_event (C := C) (lift r).
Proof. intros w. reflexivity. Qed.

Lemma ignores_event_bind {A B} (m : M C A) (k : A -> M C B) :
  ignores_event m -> (forall a, ignores_event (k a)) ->
  ignores_event (mbind m k).
Proof.
  intros Hm Hk w. unfold mbind. rewrite Hm.
  destruct (m w) as [[a|e] w']; cbn [fst snd]; [apply Hk|reflexivity].
Qed.

Lemma ignores_event_on_fs (f : gmap string File -> gmap string File) :
  ignores_event (C := C) (on_fs f).
Proof. intros w. reflexivity. Qed.

Lemma ignores_event_verboseprint args (line : str) :
  ignores_event (C := C) (verboseprint args line).
Proof. intros w. unfold verboseprint. destruct (verbose args); reflexivity. Qed.

Lemma ignores_event_read (n : Z) : ignores_event (C := C) (read n).
Proof.
  intros w. unfold read. cbn [Event_set conn].
  destruct (conn_read n (conn w)). reflexivity.
Qed.

Lemma ignores_event_write_meta_lines env args (s : Session) (items : dict) :
  ignores_event (C := C) (write_meta_lines env args s items).
Proof.
  induction items as [|[k v] r IH]; cbn [write_meta_lines].
  - apply ignores_event_ret.
  - apply ignores_event_bind; [apply ignores_event_verboseprint|]. intros _.
    apply ignores_event_bind; [|intros _; exact IH].
    destruct (metaTarget s); [|apply ignores_event_ret].
    apply ignores_event_bind; [apply ignores_event_lift|]. intros b.
    apply ignores_event_bind; [apply ignores_event_on_fs|]. intros _.
    apply ignores_event_on_fs.
Qed.

Lemma ignores_event_loop_body env args (s : Session) :
  ignores_event (C := C) (loop_body env args s).
Proof.
  unfold loop_body.
  apply ignores_event_bind; [apply ignores_event_read|]. intros chunk.
  apply ignores_event_bind; [apply ignores_event_on_fs|]. intros _.
  destruct (icy args && truthy (icyMetaint s)); [|apply ignores_event_ret].
  apply ignores_event_bind; [apply ignores_event_read|]. intros b.
  apply ignores_event_bind; [apply ignores_event_lift|]. intros n.
  destruct (n * 16 >? 0); [|apply ignores_event_ret].
  apply ignores_event_bind; [apply ignores_event_read|]. intros raw.
  destruct (List.filter _ raw); [apply ignores_event_ret|].
  apply ignores_event_bind; [apply ignores_event_lift|]. intros items.
  apply ignores_event_write_meta_lines.
Qed.

(** X11: the signal of [record] is seen at the test of the loop and nowhere
    else. A passage gives the same result and does the same to the files,
    the output and the connection whether the event is set or not, and
    leaves the event set; and with the event set the next test ends the
    worker by [return], without a read, without output and without another
    byte in any file. *)
Theorem signal_is_seen_at_the_next_test env args (s : Session)
  (w : World C) :
  loop_body env args s (Event_set w)
  = (fst (loop_body env args s w), Event_set (snd (loop_body env args s w)))
  /\ (let fin := record_worker_step env args (Streaming s, Event_set w) in
      fst fin = Returned
      /\ conn (snd fin) = conn w
      /\ stdout (snd fin) = stdout w
      /\ forall name, f_data <$> fs (snd fin) !! name
                      = f_data <$> fs w !! name).
Proof.
  split; [apply ignores_event_loop_body|].
  cbn [record_worker_step Event_set stoprec negb andb fst snd].
  repeat split. intros name. cbn.
  rewrite f_data_close_meta. unfold file_close.
  apply f_data_alter_same. reflexivity.
Qed.



End Files.

Section Start.

Context {C : Type} `{HTTPResponse C}.

Lemma start_unfold env target_dir args (w : World C) :
  let base := base_filename env target_dir args in
  let meta := base +:+ ".meta" in
  record_worker_start env target_dir args w =
  match add_extension (getheader (conn w) "Content-Type") base w with
  | (Raise e, w1) => (Raise e, w1)
  | (Ok fn, w1) =>
      match read_icyMetaint env args (conn w1) with
      | Raise e => (Raise e, w1)
      | Ok m =>
          if metadata_mode args m then
            match write_header_lines env args meta (icy_header_keys (conn w1))
                    (set_fs (file_open meta) w1) with
            | (Ok _, w2) => start_tail args fn (Some meta) m w2
            | (Raise e, w2) => (Raise e, w2)
            end
          else start_tail args fn None m w1
      end
  end.
Proof.
  intros base meta. unfold record_worker_start. fold base. fold meta.
  unfold mbind at 1. unfold mbind at 1.
  destruct (add_extension _ base w) as [[fn|e] w1]; [|reflexivity].
  unfold mbind at 1. unfold mbind at 1.
  destruct (read_icyMetaint env args (conn w1)) as [m|e]; [|reflexivity].
  fold (metadata_mode args m).
  unfold mbind at 1.
  destruct (metadata_mode args m).
  - unfold mbind at 1. unfold on_fs at 1. unfold mbind at 1.
    destruct (write_header_lines env args meta (icy_header_keys (conn w1))
                (set_fs (file_open meta) w1)) as [[u|e] w2]; reflexivity.
  - reflexivity.
Qed.

Lemma start_tail_spec args fn mt m (w : World C) :
  start_tail args fn mt m w
  = (Ok {| filename := fn; metaTarget := mt; icyMetaint := m;
           readLength := read_length m; passage := 0 |},
     {| fs := (if public args then file_chmod_public fn (file_open fn (fs w))
               else file_open fn (fs w));
        stdout := stdout w
                  ++ (if verbose args
                      then (if public args
                            then [text "Apply public write permissions (Linux only)"]
                            else [])
                           ++ [text ("Recording " +:+ station args +:+ "...")]
                      else []);
        conn := conn w; stoprec := stoprec w |}).
Proof.
  unfold start_tail, mbind, on_fs, verboseprint, print, ret, set_fs.
  destruct (public args), (verbose args); cbn; rewrite <- ?app_assoc, ?app_nil_r;
    reflexivity.
Qed.

Lemma header_line_encodes env (c : C) (k : string) :
  exists b, utf8_encode (header_line env c k) = Ok b.
Proof. apply utf8_encode_text. Qed.

Lemma write_header_lines_spec env args meta keys (w : World C) :
  exists bs w',
    write_header_lines env args meta keys w = (Ok tt, w')
    /\ utf8_encode (concat (map (header_line env (conn w)) keys)) = Ok bs
    /\ conn w' = conn w /\ stoprec w' = stoprec w
    /\ (verbose args = false -> stdout w' = stdout w)
    /\ (forall k, k <> meta -> fs w' !! k = fs w !! k)
    /\ f_data <$> fs w' !! meta
       = (fun d => d ++ bs) <$> (f_data <$> fs w !! meta).
Proof.
  revert w. induction keys as [|k r IH]; intros w;
    cbn [write_header_lines map concat].
  - exists [], w. repeat split; auto.
    destruct (fs w !! meta) as [x|]; cbn; [rewrite app_nil_r|]; reflexivity.
  - destruct (header_line_encodes env (conn w) k) as [b Hb].
    unfold mbind at 1. unfold mbind at 1.
    set (line := text (k +:+ ": " +:+ format_value (getheader (conn w) k))).
    assert (Hv : exists w1, verboseprint args line w = (Ok tt, w1)
                 /\ conn w1 = conn w /\ stoprec w1 = stoprec w
                 /\ fs w1 = fs w
                 /\ (verbose args = false -> stdout w1 = stdout w)).
    { unfold verboseprint. destruct (verbose args); cbn; eexists;
        repeat split; auto. discriminate. }
    destruct Hv as (w1 & -> & Hc1 & Hs1 & Hf1 & Ho1).
    unfold mbind at 1, lift. unfold header_line in Hb. rewrite Hb.
    unfold mbind at 1, on_fs.
    destruct (IH (set_fs (file_write meta b) w1))
      as (bs & w' & -> & Henc & Hc' & Hs' & Ho' & Hother & Hdata).
    cbn [conn stoprec stdout fs set_fs] in *.
    rewrite Hc1 in Henc.
    exists (b ++ bs), w'. split; [reflexivity|].
    split; [apply utf8_encode_app; [exact Hb|exact Henc]|].
    split; [congruence|]. split; [congruence|].
    split; [intros Hq; rewrite Ho', Ho1 by exact Hq; reflexivity|].
    split.
    + intros k' Hk'. rewrite Hother by exact Hk'. unfold file_write.
      rewrite lookup_alter_ne by congruence. rewrite Hf1. reflexivity.
    + rewrite Hdata. unfold file_write. rewrite lookup_alter_eq, Hf1.
      destruct (fs w !! meta) as [x|]; cbn; [|reflexivity].
      rewrite app_assoc. reflexivity.
Qed.

End Start.

Section Sidecar.

Context {C : Type} `{HTTPResponse C}.





End Sidecar.

Section Run.

Context {C : Type} `{HTTPResponse C}.

Lemma lookup_file_open_ne (k name : string) (m : gmap string File) :
  k <> name -> file_open name m !! k = m !! k.
Proof. intros Hne. unfold file_open. apply lookup_insert_ne. congruence. Qed.

Lemma lookup_chmod_ne (k name : string) (m : gmap string File) :
  k <> name -> file_chmod_public name m !! k = m !! k.
Proof.
  intros Hne. unfold file_chmod_public. apply lookup_alter_ne. congruence.
Qed.

Lemma start_other_files env target_dir args (w : World C) (k : string) :
  let base := base_filename env target_dir args in
  k <> base +:+ ".meta" -> k <> base +:+ ".mp3" -> k <> base +:+ ".aac" ->
  k <> base +:+ ".ogg" ->
  fs (snd (record_worker_start env target_dir args w)) !! k = fs w !! k.
Proof.
  intros base Hmeta Hmp3 Haac Hogg.
  pose proof (start_unfold env target_dir args w) as Hu. cbv zeta in Hu.
  fold base in Hu. rewrite Hu. clear Hu.
  pose proof (add_extension_spec (getheader (conn w) "Content-Type") base w)
    as Hext.
  destruct (add_extension _ base w) as [[fn|e] w1].
  2:{ cbn. destruct Hext as (-> & _). reflexivity. }
  destruct Hext as (Hfn & Hf & _).
  assert (Hk : k <> fn) by (destruct Hfn as [-> | [-> | ->]]; assumption).
  assert (Htail : forall mt m (w2 : World C),
            fs (snd (start_tail args fn mt m w2)) !! k = fs w2 !! k).
  { intros mt m w2. rewrite start_tail_spec. cbn [snd fs].
    destruct (public args);
      rewrite ?lookup_chmod_ne, lookup_file_open_ne by exact Hk; reflexivity. }
  destruct (read_icyMetaint env args (conn w1)) as [m|e]; [|cbn; congruence].
  destruct (metadata_mode args m).
  - destruct (write_header_lines_spec env args (base +:+ ".meta")
                (icy_header_keys (conn w1))
                (set_fs (file_open (base +:+ ".meta")) w1))
      as (bs & w2 & -> & _ & _ & _ & _ & Hother & _).
    rewrite Htail, Hother by exact Hmeta. cbn.
    rewrite lookup_file_open_ne by exact Hmeta. congruence.
  - rewrite Htail. congruence.
Qed.

(** X15: the worker touches its own two files and no other: a file under
    another name is, at every step, what it was before the capture. *)
Theorem worker_touches_only_its_files env target_dir args n (w : World C)
  (k : string) :
  let base := base_filename env target_dir args in
  k <> base +:+ ".meta" -> k <> base +:+ ".mp3" -> k <> base +:+ ".aac" ->
  k <> base +:+ ".ogg" ->
  fs (snd (record_worker env target_dir args n w)) !! k = fs w !! k.
Proof.
  intros base Hmeta Hmp3 Haac Hogg.
  pose proof (start_other_files env target_dir args w k Hmeta Hmp3 Haac Hogg)
    as Hstart.
  pose proof (start_spec env target_dir args w) as Hs. cbv zeta in Hs.
  fold base in Hs.
  unfold record_worker, record_worker_begin.
  destruct (record_worker_start env target_dir args w) as [[s|e] w1];
    cbn [snd] in Hstart.
  - destruct Hs as (_ & _ & _ & Hmt & Hfn & _).
    rewrite <- Hstart.
    assert (Hk : k <> filename s)
      by (destruct Hfn as [-> | [-> | ->]]; assumption).
    assert (Hkm : forall m, metaTarget s = Some m -> k <> m).
    { intros m Hm. rewrite Hm in Hmt.
      destruct (metadata_mode args (icyMetaint s)); [|discriminate].
      injection Hmt as ->. exact Hmeta. }
    apply (frame_steps (fun a b => fs b !! k = fs a !! k) env args
             (filename s) (metaTarget s)); try reflexivity.
    + intros a b c Hab Hbc. congruence.
    + intros line w0. unfold verboseprint. destruct (verbose args); reflexivity.
    + intros n0 w0. unfold read. destruct (conn_read n0 (conn w0)). reflexivity.
    + intros b w0. cbn. unfold file_write. apply lookup_alter_ne. congruence.
    + intros w0. cbn. unfold file_close. apply lookup_alter_ne. congruence.
    + intros m b w0 Hm. cbn. unfold file_write. apply lookup_alter_ne.
      specialize (Hkm m Hm). congruence.
    + intros m w0 Hm. cbn. unfold file_flush. apply lookup_alter_ne.
      specialize (Hkm m Hm). congruence.
    + intros m w0 Hm. cbn. unfold file_close. apply lookup_alter_ne.
      specialize (Hkm m Hm). congruence.
  - rewrite steps_terminated by reflexivity. exact Hstart.
Qed.

(** X16: in metadata mode the sidecar begins with one line [name: value] for
    each header of the response whose name begins with [icy-] in any case,
    in the order of the response; this stays the beginning of the sidecar
    at every later step. *)
Theorem sidecar_begins_with_the_headers env target_dir args n
  (w w1 : World C) (s : Session) :
  record_worker_start env target_dir args w = (Ok s, w1) ->
  metadata_mode args (icyMetaint s) = true ->
  exists bs t,
    utf8_encode (concat (map (header_line env (conn w))
                             (icy_header_keys (conn w)))) = Ok bs
    /\ f_data <$> fs w1 !! (base_filename env target_dir args +:+ ".meta")
       = Some bs
    /\ f_data <$> fs (snd (record_worker env target_dir args n w))
                  !! (base_filename env target_dir args +:+ ".meta")
       = Some (bs ++ t).
Proof.
  intros Hstart Hmode.
  set (base := base_filename env target_dir args).
  pose proof (start_spec env target_dir args w) as Hs. cbv zeta in Hs.
  rewrite Hstart in Hs. fold base in Hs.
  destruct Hs as (_ & Hread & _ & _ & Hfn & _).
  pose proof (start_unfold env target_dir args w) as Hu. cbv zeta in Hu.
  fold base in Hu. rewrite Hstart in Hu.
  pose proof (add_extension_spec (getheader (conn w) "Content-Type") base w)
    as Hext.
  destruct (add_extension _ base w) as [[fn|e] w0]; [|discriminate].
  destruct Hext as (_ & _ & Hc0 & _).
  rewrite Hc0, Hread, Hmode in Hu.
  destruct (write_header_lines_spec env args (base +:+ ".meta")
              (icy_header_keys (conn w))
              (set_fs (file_open (base +:+ ".meta")) w0))
    as (bs & w2 & Hw & Henc & _ & _ & _ & _ & Hdata).
  rewrite Hw, start_tail_spec in Hu. injection Hu as Hs Hw1.
  assert (Hne : base +:+ ".meta" <> fn).
  { assert (Hf : filename s = fn) by (rewrite Hs; reflexivity).
    rewrite Hf in Hfn. intros Heq. symmetry in Heq.
    destruct Hfn as [-> | [-> | ->]];
      revert Heq; apply base_meta_ne; discriminate. }
  assert (Hbs : f_data <$> fs w1 !! (base +:+ ".meta") = Some bs).
  { subst w1. cbn [fs].
    assert (Hl : forall g : gmap string File,
               (if public args then file_chmod_public fn (file_open fn g)
                else file_open fn g) !! (base +:+ ".meta")
               = g !! (base +:+ ".meta")).
    { intros g. destruct (public args);
        rewrite ?lookup_chmod_ne, lookup_file_open_ne by exact Hne;
        reflexivity. }
    rewrite Hl, Hdata. cbn. unfold file_open. rewrite lookup_insert_eq.
    reflexivity. }
  cbn [conn set_fs] in Henc. rewrite Hc0 in Henc.
  unfold record_worker, record_worker_begin. rewrite Hstart.
  destruct (steps_only_append env args n s w1 _ _ Hbs) as [t Ht].
  exists bs, t. auto.
Qed.

(** X17: a capture that is not verbose prints nothing when the content type
    is one of the six that have an extension. *)
Theorem quiet_capture_prints_nothing env target_dir args n (w : World C)
  (t : string) :
  verbose args = false ->
  getheader (conn w) "Content-Type" = Some t ->
  t ∈ ["audio/mpeg"; "application/aacp"; "audio/aacp"; "audio/aac";
       "application/ogg"; "audio/ogg"]%string ->
  stdout (snd (record_worker env target_dir args n w)) = stdout w.
Proof.
  intros Hq Hct Ht.
  set (base := base_filename env target_dir args).
  assert (Hext : exists fn, add_extension (Some t) base w = (Ok fn, w)).
  { repeat (apply elem_of_cons in Ht as [->|Ht]; [eexists; reflexivity|]).
    inversion Ht. }
  destruct Hext as [fn Hext].
  pose proof (start_unfold env target_dir args w) as Hu. cbv zeta in Hu.
  fold base in Hu. rewrite Hct, Hext in Hu.
  assert (Hstart : stdout (snd (record_worker_start env target_dir args w))
                   = stdout w).
  { rewrite Hu. destruct (read_icyMetaint env args (conn w)) as [m|e];
      [|reflexivity].
    destruct (metadata_mode args m).
    - destruct (write_header_lines_spec env args (base +:+ ".meta")
                  (icy_header_keys (conn w))
                  (set_fs (file_open (base +:+ ".meta")) w))
        as (bs & w2 & -> & _ & _ & _ & Ho & _).
      rewrite start_tail_spec. cbn [snd stdout]. rewrite Hq, app_nil_r.
      apply Ho, Hq.
    - rewrite start_tail_spec. cbn [snd stdout]. rewrite Hq, app_nil_r.
      reflexivity. }
  unfold record_worker, record_worker_begin.
  destruct (record_worker_start env target_dir args w) as [[s|e] w1];
    cbn [snd] in Hstart.
  - rewrite <- Hstart.
    apply (frame_steps (fun a b => stdout b = stdout a) env args
             (filename s) (metaTarget s)); try reflexivity.
    + intros a b c Hab Hbc. congruence.
    + intros line w0. unfold verboseprint. rewrite Hq. reflexivity.
    + intros n0 w0. unfold read. destruct (conn_read n0 (conn w0)). reflexivity.
  - rewrite steps_terminated by reflexivity. exact Hstart.
Qed.

End Run.

(** ** The playlist of [record] *)

Section Playlist.

Context {C : Type}.

Lemma readline_loop_line (cur p r : bytes) :
  Forall (fun b => Byte.eqb b x0a = false) p ->
  readline_loop cur (p ++ x0a :: r) = (cur ++ p ++ [x0a]) :: readline_loop [] r.
Proof.
  intros Hp. revert cur. induction Hp as [|b p Hb Hp IH]; intros cur.
  - reflexivity.
  - cbn [app readline_loop]. rewrite Hb, IH, <- app_assoc. reflexivity.
Qed.

Lemma readline_loop_last (cur p : bytes) :
  Forall (fun b => Byte.eqb b x0a = false) p -> cur ++ p <> [] ->
  readline_loop cur p = [cur ++ p].
Proof.
  intros Hp. revert cur. induction Hp as [|b p Hb Hp IH]; intros cur Hne.
  - rewrite app_nil_r in *. cbn. destruct cur; [congruence|reflexivity].
  - cbn [readline_loop]. rewrite Hb, IH, <- app_assoc; [reflexivity|].
    rewrite <- app_assoc. exact Hne.
Qed.

Lemma iter_lines_skipped (skipped : list bytes) (rest : bytes) :
  Forall skipped_line skipped ->
  iter_lines (concat skipped ++ rest) = skipped ++ iter_lines rest.
Proof.
  unfold iter_lines.
  induction 1 as [|l ls (p & t & -> & Hp & _) _ IH]; [reflexivity|].
  cbn [concat]. rewrite <- !app_assoc. cbn [app].
  rewrite readline_loop_line by exact Hp. rewrite IH. reflexivity.
Qed.

Lemma playlist_loop_skipped (skipped lines : list bytes) :
  Forall skipped_line skipped ->
  playlist_loop (skipped ++ lines) = playlist_loop lines.
Proof.
  induction 1 as [|l ls (p & t & -> & Hp & Ht & Hs) _ IH]; [reflexivity|].
  cbn [app playlist_loop]. rewrite Ht. cbn [bind].
  destruct Hs as [-> | ->]; [exact IH|].
  cbn [app length]. rewrite andb_false_r. exact IH.
Qed.

(** X18: in a playlist the first line that is neither a comment nor the line
    end alone is the address of the stream, and its line end stays in the
    address. *)
Theorem playlist_entry_keeps_line_end args (streamurl u : str)
  (skipped : list bytes) (l rest : bytes) (w : World C) :
  str_endswith streamurl (text ".m3u") = true ->
  Forall skipped_line skipped ->
  utf8_encode u = Ok l -> l <> [] ->
  Forall (fun b => Byte.eqb b x0a = false) l ->
  str_startswith u (text "#") = false ->
  fst (record_streamurl args streamurl (concat skipped ++ l ++ x0a :: rest) w)
  = Done (u ++ [10]).
Proof.
  intros Hm3u Hsk Henc Hne Hl Hu. unfold record_streamurl. rewrite Hm3u.
  rewrite iter_lines_skipped by exact Hsk.
  rewrite playlist_loop_skipped by exact Hsk.
  unfold iter_lines. rewrite readline_loop_line by exact Hl.
  cbn [app playlist_loop].
  assert (Hdec : utf8_decode (l ++ [x0a]) = Ok (u ++ [10])).
  { apply utf8_decode_encode_app; [exact Henc|reflexivity]. }
  rewrite Hdec. cbn [bind].
  assert (Hst : str_startswith (u ++ [10]) (text "#") = false).
  { change (text "#") with [35] in *.
    destruct u as [|c r]; [reflexivity|].
    cbn [app str_startswith] in *. exact Hu. }
  rewrite Hst. cbn [negb andb].
  assert ((1 <? Z.of_nat (length (l ++ [x0a]))) = true) as ->.
  { apply Z.ltb_lt. rewrite length_app. cbn [length].
    destruct l; [congruence|]. cbn [length]. lia. }
  reflexivity.
Qed.

(** X19: a playlist with nothing but comments and lines that hold the line
    end alone leaves the address unassigned: the lines end with
    [UnboundLocalError]. *)
Theorem playlist_without_entry_is_unbound args (streamurl : str)
  (skipped : list bytes) (w : World C) :
  str_endswith streamurl (text ".m3u") = true ->
  Forall skipped_line skipped ->
  fst (record_streamurl args streamurl (concat skipped) w)
  = UnboundLocalError.
Proof.
  intros Hm3u Hsk. unfold record_streamurl. rewrite Hm3u.
  rewrite <- (app_nil_r (concat skipped)).
  rewrite iter_lines_skipped by exact Hsk.
  rewrite playlist_loop_skipped by exact Hsk.
  reflexivity.
Qed.

(** X20: a line that is no UTF-8 text, met before an address is found, ends
    the lines with [UnicodeDecodeError], whatever its length and whatever
    follows it. *)
Theorem playlist_undecodable_line_raises args (streamurl : str)
  (skipped : list bytes) (l rest : bytes) (e : exn) (w : World C) :
  str_endswith streamurl (text ".m3u") = true ->
  Forall skipped_line skipped ->
  Forall (fun b => Byte.eqb b x0a = false) l ->
  utf8_decode (l ++ [x0a]) = Raise e ->
  fst (record_streamurl args streamurl (concat skipped ++ l ++ x0a :: rest) w)
  = Raises UnicodeDecodeError.
Proof.
  intros Hm3u Hsk Hl Hdec. unfold record_streamurl. rewrite Hm3u.
  rewrite iter_lines_skipped by exact Hsk.
  rewrite playlist_loop_skipped by exact Hsk.
  unfold iter_lines. rewrite readline_loop_line by exact Hl.
  cbn [app playlist_loop].
  rewrite (utf8_decode_raises _ _ Hdec) in Hdec. rewrite Hdec. reflexivity.
Qed.

End Playlist.

(** ** The properties at concrete inputs *)

Ltac not_elem :=
  vm_compute;
  let H := fresh "Hin" in
  intros H;
  repeat (apply elem_of_cons in H as [H|H]; [discriminate H|]);
  inversion H.

Lemma parse_icy_later_field_wins_witness :
  exists d',
    parse_icy (blit "StreamTitle='A'" ++ ";"%byte :: blit "StreamTitle='B'")
    = Ok d'
    /\ dict_get d' (text "StreamTitle")
       = Some (slice 1 (-1) (strip (text "'B'")))
    /\ (forall k, k <> text "StreamTitle" ->
        dict_get d' k = dict_get [(text "StreamTitle", text "A")] k)
    /\ (text "StreamTitle" ∈ map fst [(text "StreamTitle", text "A")] ->
        map fst d' = map fst [(text "StreamTitle", text "A")])
    /\ (text "StreamTitle" ∉ map fst [(text "StreamTitle", text "A")] ->
        map fst d' = map fst [(text "StreamTitle", text "A")]
                     ++ [text "StreamTitle"]).
Proof.
  apply (parse_icy_later_field_wins (blit "StreamTitle='A'")
           (blit "StreamTitle='B'") [(text "StreamTitle", text "A")]
           (text "StreamTitle") (text "'B'")).
  - reflexivity.
  - vm_compute. repeat constructor.
  - reflexivity.
  - not_elem.
Defined.

Lemma parse_icy_no_separators_witness :
  parse_icy block_example = Ok dict_example
  /\ (61 ∉ text "StreamTitle") /\ (59 ∉ text "StreamTitle")
  /\ (59 ∉ text "Artist - Song").
Proof.
  split; [reflexivity|].
  apply (parse_icy_no_separators block_example dict_example).
  - reflexivity.
  - apply list_elem_of_In. vm_compute. left. reflexivity.
Defined.

Lemma parse_icy_result_round_trips_witness :
  exists bs, icy_encode dict_example = Ok bs /\ parse_icy bs = Ok dict_example.
Proof.
  apply (parse_icy_result_round_trips block_example). reflexivity.
Defined.


Lemma loop_only_appends_witness :
  f_data <$> fs (world_icy1 body_title) !! meta0
  = Some (blit "icy-metaint: 1" ++ [x0a])
  /\ exists t,
       f_data <$> fs (snd (steps env0 (args0 true) 2
                             (Streaming session_icy1, world_icy1 body_title)))
                  !! meta0
       = Some ((blit "icy-metaint: 1" ++ [x0a]) ++ t).
Proof.
  split; [reflexivity|].
  apply (loop_only_appends env0 (args0 true) 2 session_icy1
           (world_icy1 body_title) meta0 (blit "icy-metaint: 1" ++ [x0a])).
  reflexivity.
Defined.

(** The event is set before the worker comes to its loop, as it is when
    [urlopen] and the headers took longer than the duration. *)
Lemma files_closed_at_the_end_witness :
  let st := record_worker env0 "/tmp" (args0 true) 1
              (Event_set (world0 (hdr_mpeg_metaint "1") body_zero)) in
  fst st = Returned
  /\ f_closed <$> fs (snd st) !! audio0 = Some true
  /\ exists f, fs (snd st) !! meta0 = Some f
               /\ f_closed f = true /\ f_dirty f = false.
Proof.
  destruct (files_closed_at_the_end env0 "/tmp" (args0 true) 1
              (Event_set (world0 (hdr_mpeg_metaint "1") body_zero))
              (Event_set (world_icy1 body_zero)) session_icy1)
    as [Haudio Hmeta]; [reflexivity|].
  split; [reflexivity|]. split.
  - apply Haudio. reflexivity.
  - apply Hmeta; reflexivity.
Defined.




Lemma worker_touches_only_its_files_witness :
  fs (snd (record_worker env0 "/tmp" (args0 true) 4
             (world0 (hdr_mpeg_metaint "1") body_title)))
     !! "/tmp/other.mp3"%string
  = fs (world0 (hdr_mpeg_metaint "1") body_title) !! "/tmp/other.mp3"%string.
Proof.
  apply (worker_touches_only_its_files env0 "/tmp" (args0 true) 4
           (world0 (hdr_mpeg_metaint "1") body_title) "/tmp/other.mp3");
    vm_compute; discriminate.
Defined.

Lemma sidecar_begins_with_the_headers_witness :
  exists bs t,
    utf8_encode
      (concat (map (header_line env0
                      (conn (world0 (hdr_mpeg_metaint "1") body_title)))
                   (icy_header_keys
                      (conn (world0 (hdr_mpeg_metaint "1") body_title)))))
    = Ok bs
    /\ f_data <$> fs (world_icy1 body_title)
                  !! (base_filename env0 "/tmp" (args0 true) +:+ ".meta")
       = Some bs
    /\ f_data <$> fs (snd (record_worker env0 "/tmp" (args0 true) 4
                             (world0 (hdr_mpeg_metaint "1") body_title)))
                  !! (base_filename env0 "/tmp" (args0 true) +:+ ".meta")
       = Some (bs ++ t).
Proof.
  apply (sidecar_begins_with_the_headers env0 "/tmp" (args0 true) 4
           (world0 (hdr_mpeg_metaint "1") body_title) (world_icy1 body_title)
           session_icy1);
    reflexivity.
Defined.

Lemma quiet_capture_prints_nothing_witness :
  stdout (snd (record_worker env0 "/tmp" (args0 true) 4
                 (world0 (hdr_mpeg_metaint "1") body_title)))
  = stdout (world0 (hdr_mpeg_metaint "1") body_title).
Proof.
  apply (quiet_capture_prints_nothing env0 "/tmp" (args0 true) 4
           (world0 (hdr_mpeg_metaint "1") body_title) "audio/mpeg").
  - reflexivity.
  - reflexivity.
  - apply list_elem_of_In. vm_compute. left. reflexivity.
Defined.

Lemma playlist_head_skipped : Forall skipped_line playlist_head.
Proof.
  repeat constructor.
  - exists (blit "#EXTM3U"), (text "#EXTM3U" ++ [10]).
    repeat split; try reflexivity.
    + vm_compute. repeat constructor.
    + left. reflexivity.
  - exists [], [10]. repeat split; try reflexivity.
    + constructor.
    + right. reflexivity.
Qed.

Lemma playlist_entry_keeps_line_end_witness :
  fst (record_streamurl (args0 false) playlist_address
         (concat playlist_head ++ blit stream_address ++ x0a :: playlist_tail)
         (world0 [] []))
  = Done (text stream_address ++ [10]).
Proof.
  apply (playlist_entry_keeps_line_end (args0 false) playlist_address
           (text stream_address) playlist_head (blit stream_address)
           playlist_tail (world0 [] [])).
  - reflexivity.
  - exact playlist_head_skipped.
  - reflexivity.
  - vm_compute. discriminate.
  - vm_compute. repeat constructor.
  - reflexivity.
Defined.

Lemma playlist_without_entry_is_unbound_witness :
  fst (record_streamurl (args0 false) playlist_address (concat playlist_head)
         (world0 [] []))
  = UnboundLocalError.
Proof.
  apply (playlist_without_entry_is_unbound (args0 false) playlist_address
           playlist_head (world0 [] [])).
  - reflexivity.
  - exact playlist_head_skipped.
Defined.

Lemma playlist_undecodable_line_raises_witness :
  fst (record_streamurl (args0 false) playlist_address
         (concat playlist_head ++ [xff] ++ x0a :: playlist_tail)
         (world0 [] []))
  = Raises UnicodeDecodeError.
Proof.
  apply (playlist_undecodable_line_raises (args0 false) playlist_address
           playlist_head [xff] playlist_tail UnicodeDecodeError (world0 [] [])).
  - reflexivity.
  - exact playlist_head_skipped.
  - vm_compute. repeat constructor.
  - reflexivity.
Defined.
